(** * Finger haptic feedback system: detector pipeline and device protocol

    A shallow embedding of the two computational cores of the repository,
    - [src/utils/hapticController.ts] (class [HapticController]): the binary
      command protocol spoken to the fingertip device over Web Bluetooth;
    - [src/utils/yolo11Detector.ts] (class [YOLO11Detector]): decoding of the
      raw network output, threshold filters and non-maximum suppression;
    followed by the properties the specification states about them.

    Conventions of the embedding.
    - A JavaScript [number] is an exact rational ([Q]); rounding of binary64
      arithmetic, infinities and NaN are outside the model.  Where the source
      would compute with [undefined] (a typed-array read past the end) the
      embedding returns [None].
    - An [async] method is one atomic step of the single logical thread: every
      [await] is resolved by the environment before the next statement runs.
    - The browser (Web Bluetooth stack, canvas, inference engine, wall clock)
      is an explicit record of answers passed to the method that consults it.
    - Exceptions are values of [Completion]; [try]/[catch] is [try_catch]. *)

From Stdlib Require Import ZArith QArith Qround Qminmax Lia Lqa SpecFloat.
From stdpp Require Import gmap strings list sorting pretty.

Local Open Scope Z_scope.

(** ** JavaScript values used by both classes *)

Module JS.

(** A completed statement: a value, or a thrown [Error] with its message. *)
Inductive Completion (A : Type) : Type :=
| Normal (a : A)
| Throw (message : string).
Arguments Normal {A} a.
Arguments Throw {A} message.

Definition cbind {A B} (c : Completion A) (k : A → Completion B) : Completion B :=
  match c with
  | Normal a => k a
  | Throw m => Throw m
  end.

(** [ToIntegerOrInfinity] on a finite number: truncation towards zero. *)
Definition trunc (x : Q) : Z := Z.quot (Qnum x) (Z.pos (Qden x)).

Definition ToUint8 (x : Q) : Z := trunc x mod 2 ^ 8.
Definition ToUint16 (x : Q) : Z := trunc x mod 2 ^ 16.
Definition ToInt8 (x : Q) : Z :=
  let int8bit := trunc x mod 2 ^ 8 in
  if 2 ^ 7 <=? int8bit then int8bit - 2 ^ 8 else int8bit.

(** An [ArrayBuffer] is its bytes, each in [0, 255]; a [DataView] over the
    whole buffer writes through to it. *)
Definition ArrayBuffer := list Z.

Definition new_ArrayBuffer (length : nat) : ArrayBuffer := replicate length 0.

Definition RangeError : string := "Offset is outside the bounds of the DataView".

Definition setUint8 (byteOffset : nat) (value : Q) (b : ArrayBuffer)
  : Completion ArrayBuffer :=
  if decide (byteOffset + 1 ≤ length b)%nat
  then Normal (<[byteOffset := ToUint8 value]> b)
  else Throw RangeError.

(** The byte stored for an Int8 is its two's complement encoding. *)
Definition setInt8 (byteOffset : nat) (value : Q) (b : ArrayBuffer)
  : Completion ArrayBuffer :=
  if decide (byteOffset + 1 ≤ length b)%nat
  then Normal (<[byteOffset := ToInt8 value mod 2 ^ 8]> b)
  else Throw RangeError.

Definition setUint16 (byteOffset : nat) (value : Q) (littleEndian : bool)
    (b : ArrayBuffer) : Completion ArrayBuffer :=
  if decide (byteOffset + 2 ≤ length b)%nat
  then
    let w := ToUint16 value in
    let lo := w mod 2 ^ 8 in
    let hi := w / 2 ^ 8 in
    Normal (if littleEndian
            then <[S byteOffset := hi]> (<[byteOffset := lo]> b)
            else <[S byteOffset := lo]> (<[byteOffset := hi]> b))
  else Throw RangeError.

Definition getUint8 (byteOffset : nat) (b : ArrayBuffer) : Completion Z :=
  match b !! byteOffset with
  | Some v => Normal v
  | None => Throw RangeError
  end.

(** [new Uint8Array(buffer, byteOffset, length)]: a view, read here once. *)
Definition Uint8Array (b : ArrayBuffer) (byteOffset length : nat) : list Z :=
  take length (drop byteOffset b).

(** An integer result used where a [number] is expected. *)
Definition num (z : Z) : Q := inject_Z z.

(** [a < b] and [a > b] on numbers. *)
Definition lt (a b : Q) : bool := negb (Qle_bool b a).
Definition gt (a b : Q) : bool := lt b a.
Definition le (a b : Q) : bool := Qle_bool a b.

End JS.

Export JS.

(** ** Binary64 numbers *)

Module Binary64.

(** A JavaScript [number] with its rounding: the binary64 format of IEEE 754
    as the Standard Library specifies it ([SpecFloat], 53 bits of precision,
    exponents below 1024).  A value is a signed zero, a signed infinity, NaN
    or [(-1)^s * m * 2^e]; [valid] holds of the values of the format, which
    are the ones a program can hold. *)
Definition float : Type := spec_float.

Definition prec : Z := 53.
Definition emax : Z := 1024.

Definition valid (x : float) : bool := valid_binary prec emax x.

(** [a + b], [a - b], [a * b], [a / b]: the exact result rounded to the
    nearest number of the format, ties to even. *)
Definition add : float → float → float := SFadd prec emax.
Definition sub : float → float → float := SFsub prec emax.
Definition mul : float → float → float := SFmul prec emax.
Definition div : float → float → float := SFdiv prec emax.

(** [a < b], [a <= b] and [a > b]: false as soon as one side is NaN. *)
Definition ltb (a b : float) : bool := SFltb a b.
Definition leb (a b : float) : bool := SFleb a b.
Definition gtb (a b : float) : bool := SFltb b a.

Definition nan : float := S754_nan.

(** The number an integer denotes: the nearest one of the format. *)
Definition of_Z (n : Z) : float := binary_normalize prec emax n 0 false.

(** A decimal literal [n / d]: the number of the format nearest to it, which
    is what the correctly rounded quotient of the two integers is. *)
Definition decimal (n d : Z) : float := div (of_Z n) (of_Z d).

(** [Math.max] and [Math.min]: NaN when one argument is, and [+0] above
    [-0]. *)
Definition max (a b : float) : float :=
  match SFcompare a b with
  | None => nan
  | Some Lt => b
  | Some Gt => a
  | Some Eq => match a with S754_zero true => b | _ => a end
  end.

Definition min (a b : float) : float :=
  match SFcompare a b with
  | None => nan
  | Some Lt => a
  | Some Gt => b
  | Some Eq => match b with S754_zero true => b | _ => a end
  end.

(** [Math.floor(x)] as the integer setters of a [DataView] read it: the
    largest integer not above [x], and 0 for NaN and the infinities, which
    those setters store as 0. *)
Definition floor (x : float) : Z :=
  match x with
  | S754_finite s m e => Z.shiftl (cond_Zopp s (Z.pos m)) e
  | _ => 0
  end.

(** [Math.fround(x)], the value an element of a [Float32Array] holds after
    [x] is stored in it: [x] rounded to binary32 (24 bits of precision,
    exponents below 128), read back as a binary64 number. *)
Definition fround (x : float) : float :=
  match x with
  | S754_finite s m e =>
      match binary_round 24 128 s m e with
      | S754_finite s' m' e' => binary_round prec emax s' m' e'
      | y => y
      end
  | _ => x
  end.

(** The rational a finite number is; 0 stands for the others. *)
Definition to_Q (x : float) : Q :=
  match x with
  | S754_finite s m e => (inject_Z (cond_Zopp s (Z.pos m)) * 2 ^ e)%Q
  | _ => 0%Q
  end.

(** The number that is the integer [n], for [|n| < 2^53]: the mantissa is
    [|n|] shifted to 53 bits. *)
Definition repr (n : Z) : float :=
  match n with
  | 0 => S754_zero false
  | _ => S754_finite (n <? 0) (Z.to_pos (Z.abs n * 2 ^ (52 - Z.log2 (Z.abs n))))
           (Z.log2 (Z.abs n) - 52)
  end.

End Binary64.

(** ** The haptic device protocol controller *)

Module Haptic.

(** *** Types of [src/types] used by the controller *)

Record DeviceCapabilities := {
  vibration : bool;
  temperature : bool;
  pressure : bool;
  flex : bool
}.

Record FingerDevice := {
  id : string;
  name : string;
  connected : bool;
  batteryLevel : Z;
  firmwareVersion : string;
  capabilities : DeviceCapabilities
}.

Inductive Pattern := sharp | soft | medium | pulse.

Definition pattern_string (p : Pattern) : string :=
  match p with
  | sharp => "sharp"
  | soft => "soft"
  | medium => "medium"
  | pulse => "pulse"
  end.

(** [intensity] and [duration] are also fields of [HapticProfile]; those of
    [VibrationConfig] carry a [v_] here.  The intensity is multiplied before
    it is written and is a binary64 number; the other fields are written as
    they are, and a rational stands for their value. *)
Record VibrationConfig := {
  v_intensity : Binary64.float;
  frequency : Q;
  pattern : Pattern;
  v_duration : Q
}.

Record TemperatureConfig := {
  target : Q;
  rampTime : Q;
  holdTime : Q
}.

Record HapticProfile := {
  p_vibration : option VibrationConfig;
  p_temperature : option TemperatureConfig;
  duration : Q;
  intensity : Q
}.

(** *** Protocol constants *)

Definition HAPTIC_SERVICE_UUID : string := "12345678-1234-1234-1234-123456789abc".
Definition VIBRATION_CHARACTERISTIC_UUID : string := "12345678-1234-1234-1234-123456789abd".
Definition TEMPERATURE_CHARACTERISTIC_UUID : string := "12345678-1234-1234-1234-123456789abe".
Definition BATTERY_CHARACTERISTIC_UUID : string := "12345678-1234-1234-1234-123456789abf".
Definition STATUS_CHARACTERISTIC_UUID : string := "12345678-1234-1234-1234-123456789ac0".

Inductive CommandType := VIBRATION | TEMPERATURE | STOP_ALL | GET_STATUS | CALIBRATE.

Definition CommandType_code (c : CommandType) : Z :=
  match c with
  | VIBRATION => 0x01
  | TEMPERATURE => 0x02
  | STOP_ALL => 0x03
  | GET_STATUS => 0x04
  | CALIBRATE => 0x05
  end.

(** *** The browser side *)

Record BluetoothDevice := {
  dev_id : string;
  dev_name : option string
}.

(** A discovered characteristic is known by its uuid. *)
Record Characteristic := { uuid : string }.

(** One call of [characteristic.writeValue(command)]. *)
Record Write := {
  w_uuid : string;
  w_data : ArrayBuffer
}.

(** The answers of the Web Bluetooth stack.  [writeValue] may depend on
    everything written before; [None] resolves, [Some m] rejects with
    [error.message = m]. *)
Record Bluetooth := {
  available : bool;
  requestDevice : string → Completion BluetoothDevice;
  gatt_connect : BluetoothDevice → Completion unit;
  getPrimaryService : string → Completion unit;
  getCharacteristic : string → Completion Characteristic;
  readValue : Characteristic → Completion ArrayBuffer;
  writeValue : list Write → Characteristic → ArrayBuffer → option string
}.

Inductive Event :=
| connected_event (info : option FingerDevice)
| disconnected_event
| batteryUpdate_event (level : Z)
| error_event (type message : string).

(** *** Controller state

    The private fields of the class, then what it did to the outside world:
    the events handed to the listeners and the writes issued, oldest first. *)

Record HapticController := {
  device : option BluetoothDevice;
  server : bool;
  service : bool;
  characteristics : gmap string Characteristic;
  isConnected : bool;
  deviceInfo : option FingerDevice;
  batteryMonitoring : bool;
  emitted : list Event;
  written : list Write
}.

(** [new HapticController()]. *)
Definition new_HapticController : HapticController :=
  {| device := None; server := false; service := false;
     characteristics := ∅; isConnected := false; deviceInfo := None;
     batteryMonitoring := false; emitted := []; written := [] |}.

(** Statements of a method: they read and update [this] and may throw. *)
Definition M (A : Type) : Type := HapticController → Completion A * HapticController.

Definition ret {A} (a : A) : M A := λ this, (Normal a, this).
Definition throw {A} (message : string) : M A := λ this, (Throw message, this).
Definition bind {A B} (m : M A) (k : A → M B) : M B :=
  λ this,
    match m this with
    | (Normal a, this') => k a this'
    | (Throw e, this') => (Throw e, this')
    end.
Definition try_catch {A} (body : M A) (handler : string → M A) : M A :=
  λ this,
    match body this with
    | (Normal a, this') => (Normal a, this')
    | (Throw e, this') => handler e this'
    end.
Definition get : M HapticController := λ this, (Normal this, this).
Definition update (f : HapticController → HapticController) : M unit :=
  λ this, (Normal tt, f this).
Definition await {A} (c : Completion A) : M A := λ this, (c, this).

Declare Scope js_scope.
Delimit Scope js_scope with js.
Notation "'let!' x ':=' m 'in' k" := (bind m (λ x, k))
  (at level 10, x pattern, m at level 100, k at level 200) : js_scope.
Notation "m ';;' k" := (bind m (λ _, k))
  (at level 100, k at level 200, right associativity) : js_scope.
Local Open Scope js_scope.

Definition set_device d : M unit := update (λ c,
  {| device := d; server := server c; service := service c;
     characteristics := characteristics c; isConnected := isConnected c;
     deviceInfo := deviceInfo c; batteryMonitoring := batteryMonitoring c;
     emitted := emitted c; written := written c |}).
Definition set_server s : M unit := update (λ c,
  {| device := device c; server := s; service := service c;
     characteristics := characteristics c; isConnected := isConnected c;
     deviceInfo := deviceInfo c; batteryMonitoring := batteryMonitoring c;
     emitted := emitted c; written := written c |}).
Definition set_service s : M unit := update (λ c,
  {| device := device c; server := server c; service := s;
     characteristics := characteristics c; isConnected := isConnected c;
     deviceInfo := deviceInfo c; batteryMonitoring := batteryMonitoring c;
     emitted := emitted c; written := written c |}).
Definition set_characteristics m : M unit := update (λ c,
  {| device := device c; server := server c; service := service c;
     characteristics := m; isConnected := isConnected c;
     deviceInfo := deviceInfo c; batteryMonitoring := batteryMonitoring c;
     emitted := emitted c; written := written c |}).
Definition set_isConnected b : M unit := update (λ c,
  {| device := device c; server := server c; service := service c;
     characteristics := characteristics c; isConnected := b;
     deviceInfo := deviceInfo c; batteryMonitoring := batteryMonitoring c;
     emitted := emitted c; written := written c |}).
Definition set_deviceInfo i : M unit := update (λ c,
  {| device := device c; server := server c; service := service c;
     characteristics := characteristics c; isConnected := isConnected c;
     deviceInfo := i; batteryMonitoring := batteryMonitoring c;
     emitted := emitted c; written := written c |}).
Definition set_batteryMonitoring b : M unit := update (λ c,
  {| device := device c; server := server c; service := service c;
     characteristics := characteristics c; isConnected := isConnected c;
     deviceInfo := deviceInfo c; batteryMonitoring := b;
     emitted := emitted c; written := written c |}).

(** [this.emit(event, data)]: the listeners are the consumer's; the
    controller's part is the event and its payload. *)
Definition emit (e : Event) : M unit := update (λ c,
  {| device := device c; server := server c; service := service c;
     characteristics := characteristics c; isConnected := isConnected c;
     deviceInfo := deviceInfo c; batteryMonitoring := batteryMonitoring c;
     emitted := emitted c ++ [e]; written := written c |}).

(** [await characteristic.writeValue(command)]. *)
Definition write (bt : Bluetooth) (ch : Characteristic) (command : ArrayBuffer) : M unit :=
  λ c,
    let c' :=
      {| device := device c; server := server c; service := service c;
         characteristics := characteristics c; isConnected := isConnected c;
         deviceInfo := deviceInfo c; batteryMonitoring := batteryMonitoring c;
         emitted := emitted c;
         written := written c ++ [{| w_uuid := uuid ch; w_data := command |}] |} in
    match writeValue bt (written c) ch command with
    | None => (Normal tt, c')
    | Some message => (Throw message, c')
    end.

(** *** Framing *)

(** [getPatternCode]: the table is a plain object indexed by the pattern
    name, so a name that is not one of its keys is looked up on
    [Object.prototype]; [|| 1] replaces a missing (or zero) entry. *)
Definition patterns : gmap string Z :=
  {[ "sharp" := 1; "soft" := 2; "medium" := 3; "pulse" := 4 ]}.

(** The names every plain object inherits: the functions of
    [Object.prototype], and the prototype itself under [__proto__]. *)
Definition Object_prototype : list string :=
  [ "constructor"; "hasOwnProperty"; "isPrototypeOf"; "propertyIsEnumerable";
    "toLocaleString"; "toString"; "valueOf"; "__proto__";
    "__defineGetter__"; "__defineSetter__"; "__lookupGetter__"; "__lookupSetter__" ].

(** What indexing the table yields: a code, or an inherited member. *)
Inductive Member :=
| code (c : Z)
| inherited (name : string).

Definition getPatternCode (pattern : string) : Member :=
  match patterns !! pattern with
  | Some c => if c =? 0 then code 1 else code c
  | None =>
      if bool_decide (pattern ∈ Object_prototype) then inherited pattern else code 1
  end.

(** [ToNumber] of what [getPatternCode] returned: an inherited member is a
    function or an object and converts to NaN, which [setUint8] stores as
    0. *)
Definition member_number (m : Member) : Q :=
  match m with
  | code c => num c
  | inherited _ => 0
  end.

Definition calculateChecksum (data : list Z) : Z :=
  Z.land (fold_left Z.add data 0) 0xFF.

(** The frame of [sendVibration], lines 291-299. *)
Definition vibrationCommand (config : VibrationConfig) : Completion ArrayBuffer :=
  let command := new_ArrayBuffer 8 in
  cbind (setUint8 0 (num (CommandType_code VIBRATION)) command) (λ command,
  cbind (setUint8 1 (num (Binary64.floor
                            (Binary64.mul (v_intensity config) (Binary64.of_Z 255))))
           command) (λ command,
  cbind (setUint16 2 (frequency config) true command) (λ command,
  cbind (setUint16 4 (v_duration config) true command) (λ command,
  cbind (setUint8 6 (member_number (getPatternCode (pattern_string (pattern config))))
           command) (λ command,
  setUint8 7 (num (calculateChecksum (Uint8Array command 0 7))) command))))).

(** The frame of [sendTemperature], lines 325-333. *)
Definition temperatureCommand (config : TemperatureConfig) : Completion ArrayBuffer :=
  let command := new_ArrayBuffer 8 in
  cbind (setUint8 0 (num (CommandType_code TEMPERATURE)) command) (λ command,
  cbind (setInt8 1 (target config) command) (λ command,
  cbind (setUint16 2 (rampTime config) true command) (λ command,
  cbind (setUint16 4 (holdTime config) true command) (λ command,
  cbind (setUint8 6 0 command) (λ command,
  setUint8 7 (num (calculateChecksum (Uint8Array command 0 7))) command))))).

(** The frame of [stopAllFeedback], lines 371-374. *)
Definition stopAllCommand : Completion ArrayBuffer :=
  let command := new_ArrayBuffer 2 in
  cbind (setUint8 0 (num (CommandType_code STOP_ALL)) command) (λ command,
  setUint8 1 (num (calculateChecksum (Uint8Array command 0 1))) command).

(** *** Commands *)

(** [this.deviceInfo?.capabilities.X], [undefined] being falsy. *)
Definition capability (X : DeviceCapabilities → bool) (c : HapticController) : bool :=
  match deviceInfo c with
  | Some info => X (capabilities info)
  | None => false
  end.

Definition sendVibration (bt : Bluetooth) (config : VibrationConfig) : M bool :=
  let! this := get in
  if negb (isConnected this) || negb (capability vibration this)
  then ret false
  else
    try_catch
      (let! this := get in
       let! characteristic :=
         match characteristics this !! VIBRATION_CHARACTERISTIC_UUID with
         | Some ch => ret ch
         | None => throw "振动特征不可用"
         end in
       let! command := await (vibrationCommand config) in
       write bt characteristic command ;;
       ret true)
      (λ message,
         emit (error_event "VIBRATION_FAILED" message) ;;
         ret false).

Definition sendTemperature (bt : Bluetooth) (config : TemperatureConfig) : M bool :=
  let! this := get in
  if negb (isConnected this) || negb (capability temperature this)
  then ret false
  else
    try_catch
      (let! this := get in
       let! characteristic :=
         match characteristics this !! TEMPERATURE_CHARACTERISTIC_UUID with
         | Some ch => ret ch
         | None => throw "温度特征不可用"
         end in
       let! command := await (temperatureCommand config) in
       write bt characteristic command ;;
       ret true)
      (λ message,
         emit (error_event "TEMPERATURE_FAILED" message) ;;
         ret false).

(** [results] collects the outcome of each sub-send that was attempted. *)
Definition sendHapticFeedback (bt : Bluetooth) (profile : HapticProfile) : M bool :=
  let results : list bool := [] in
  let! results :=
    match p_vibration profile with
    | Some v => let! r := sendVibration bt v in ret (results ++ [r])
    | None => ret results
    end in
  let! results :=
    match p_temperature profile with
    | Some t => let! r := sendTemperature bt t in ret (results ++ [r])
    | None => ret results
    end in
  ret (forallb (λ result, result) results).

Definition stopAllFeedback (bt : Bluetooth) : M bool :=
  let! this := get in
  if negb (isConnected this)
  then ret false
  else
    try_catch
      (let! this := get in
       match characteristics this !! VIBRATION_CHARACTERISTIC_UUID with
       | Some vibrationCharacteristic =>
           let! command := await stopAllCommand in
           write bt vibrationCharacteristic command
       | None => ret tt
       end ;;
       ret true)
      (λ _, ret false).

(** *** Connection *)

Record Status := {
  s_batteryLevel : Z;
  s_firmwareVersion : string;
  s_capabilities : DeviceCapabilities
}.

Definition parseStatusData (data : ArrayBuffer) : Completion Status :=
  cbind (getUint8 0 data) (λ b0,
  cbind (getUint8 1 data) (λ b1,
  cbind (getUint8 2 data) (λ b2,
  cbind (getUint8 3 data) (λ b3,
  cbind (getUint8 4 data) (λ b4,
  Normal
    {| s_batteryLevel := b0;
       s_firmwareVersion := pretty b1 +:+ "." +:+ pretty b2 +:+ "." +:+ pretty b3;
       s_capabilities :=
         {| vibration := negb (Z.land b4 0x01 =? 0);
            temperature := negb (Z.land b4 0x02 =? 0);
            pressure := negb (Z.land b4 0x04 =? 0);
            flex := negb (Z.land b4 0x08 =? 0) |} |}))))).

Definition characteristicUUIDs : list string :=
  [ VIBRATION_CHARACTERISTIC_UUID; TEMPERATURE_CHARACTERISTIC_UUID;
    BATTERY_CHARACTERISTIC_UUID; STATUS_CHARACTERISTIC_UUID ].

(** One round of the loop of [initializeCharacteristics]: a characteristic
    that cannot be obtained is logged and skipped. *)
Definition initializeCharacteristic (bt : Bluetooth) (uuid : string) : M unit :=
  try_catch
    (let! characteristic := await (getCharacteristic bt uuid) in
     let! this := get in
     set_characteristics (<[uuid := characteristic]> (characteristics this)))
    (λ _, ret tt).

Definition initializeCharacteristics (bt : Bluetooth) : M unit :=
  foldr (λ uuid rest, initializeCharacteristic bt uuid ;; rest) (ret tt) characteristicUUIDs.

(** [this.device!]: reading a field of [null] throws. *)
Definition this_device : M BluetoothDevice :=
  let! this := get in
  match device this with
  | Some d => ret d
  | None => throw "Cannot read properties of null"
  end.

(** [this.device!.name || 'FingerSuit']. *)
Definition device_name (d : BluetoothDevice) : string :=
  match dev_name d with
  | Some n => if decide (n = "") then "FingerSuit" else n
  | None => "FingerSuit"
  end.

Definition defaultCapabilities : DeviceCapabilities :=
  {| vibration := true; temperature := true; pressure := false; flex := false |}.

Definition fetchDeviceInfo (bt : Bluetooth) : M unit :=
  try_catch
    (let! this := get in
     match characteristics this !! STATUS_CHARACTERISTIC_UUID with
     | Some statusCharacteristic =>
         let! statusData := await (readValue bt statusCharacteristic) in
         let! status := await (parseStatusData statusData) in
         let! d := this_device in
         set_deviceInfo (Some
           {| id := dev_id d;
              name := device_name d;
              connected := true;
              batteryLevel := s_batteryLevel status;
              firmwareVersion := s_firmwareVersion status;
              capabilities := s_capabilities status |})
     | None => ret tt
     end)
    (λ _,
       let! d := this_device in
       set_deviceInfo (Some
         {| id := dev_id d;
            name := device_name d;
            connected := true;
            batteryLevel := 100;
            firmwareVersion := "1.0.0";
            capabilities := defaultCapabilities |})).

(** [startBatteryMonitoring]: the request for notifications is issued when
    the battery characteristic is there; its listener runs later. *)
Definition startBatteryMonitoring : M unit :=
  let! this := get in
  match characteristics this !! BATTERY_CHARACTERISTIC_UUID with
  | Some _ => set_batteryMonitoring true
  | None => ret tt
  end.

Definition connect (bt : Bluetooth) (deviceName : string) : M bool :=
  try_catch
    (if negb (available bt)
     then throw "当前浏览器不支持Web Bluetooth API"
     else
       let! d := await (requestDevice bt deviceName) in
       set_device (Some d) ;;
       await (gatt_connect bt d) ;;
       set_server true ;;
       await (getPrimaryService bt HAPTIC_SERVICE_UUID) ;;
       set_service true ;;
       initializeCharacteristics bt ;;
       fetchDeviceInfo bt ;;
       startBatteryMonitoring ;;
       set_isConnected true ;;
       let! this := get in
       emit (connected_event (deviceInfo this)) ;;
       ret true)
    (λ message,
       emit (error_event "CONNECTION_FAILED" message) ;;
       ret false).

(** [handleDisconnection], the listener of [gattserverdisconnected]. *)
Definition handleDisconnection : M unit :=
  set_isConnected false ;;
  set_device None ;;
  set_server false ;;
  set_service false ;;
  set_characteristics ∅ ;;
  let! this := get in
  match deviceInfo this with
  | Some info =>
      set_deviceInfo (Some
        {| id := id info; name := name info; connected := false;
           batteryLevel := batteryLevel info;
           firmwareVersion := firmwareVersion info;
           capabilities := capabilities info |})
  | None => ret tt
  end ;;
  emit disconnected_event.

(** *** Vocabulary of the controller's properties *)

(** The sum of the bytes of a frame prefix. *)
Definition byte_sum (bytes : list Z) : Z := foldr Z.add 0 bytes.

(** A frame whose last byte is the additive checksum of the bytes before it. *)
Definition checksum_framed (frame : list Z) : Prop :=
  ∃ body c, frame = body ++ [c] ∧ c = byte_sum body mod 256.

(** The value range of each field of the two 8-byte frames. *)
Definition vibration_in_range (config : VibrationConfig) : Prop :=
  (0 <= frequency config <= 65535)%Q ∧ (0 <= v_duration config <= 65535)%Q.

Definition temperature_in_range (config : TemperatureConfig) : Prop :=
  (-128 <= target config <= 127)%Q ∧
  (0 <= rampTime config <= 65535)%Q ∧ (0 <= holdTime config <= 65535)%Q.

(** A controller that has everything [sendVibration] asks for. *)
Definition vibration_ready (this : HapticController) (ch : Characteristic) : Prop :=
  isConnected this = true ∧ capability vibration this = true ∧
  characteristics this !! VIBRATION_CHARACTERISTIC_UUID = Some ch.

Definition temperature_ready (this : HapticController) (ch : Characteristic) : Prop :=
  isConnected this = true ∧ capability temperature this = true ∧
  characteristics this !! TEMPERATURE_CHARACTERISTIC_UUID = Some ch.

(** A stack that finds every characteristic but the status one. *)
Definition no_status_stack : Bluetooth :=
  {| available := true;
     requestDevice := λ deviceName, Normal {| dev_id := "A1"; dev_name := Some deviceName |};
     gatt_connect := λ _, Normal tt;
     getPrimaryService := λ _, Normal tt;
     getCharacteristic := λ u,
       if decide (u = STATUS_CHARACTERISTIC_UUID)
       then Throw "NotFoundError"
       else Normal {| uuid := u |};
     readValue := λ _, Throw "NotSupportedError";
     writeValue := λ _ _ _, None |}.

(** A connected controller of a device that reported both capabilities. *)
Definition connected_controller : HapticController :=
  {| device := Some {| dev_id := "A1"; dev_name := Some "FingerSuit" |};
     server := true; service := true;
     characteristics :=
       {[ VIBRATION_CHARACTERISTIC_UUID := {| uuid := VIBRATION_CHARACTERISTIC_UUID |};
          TEMPERATURE_CHARACTERISTIC_UUID := {| uuid := TEMPERATURE_CHARACTERISTIC_UUID |} ]};
     isConnected := true;
     deviceInfo := Some
       {| id := "A1"; name := "FingerSuit"; connected := true; batteryLevel := 100;
          firmwareVersion := "1.0.0"; capabilities := defaultCapabilities |};
     batteryMonitoring := false; emitted := []; written := [] |}.

(** The same device without the vibration capability. *)
Definition no_vibration_controller : HapticController :=
  {| device := device connected_controller;
     server := true; service := true;
     characteristics := characteristics connected_controller;
     isConnected := true;
     deviceInfo := Some
       {| id := "A1"; name := "FingerSuit"; connected := true; batteryLevel := 100;
          firmwareVersion := "1.0.0";
          capabilities :=
            {| vibration := false; temperature := true; pressure := false; flex := false |} |};
     batteryMonitoring := false; emitted := []; written := [] |}.

(** The command of the specification's checksum example. *)
Definition example_vibration : VibrationConfig :=
  {| v_intensity := Binary64.of_Z 1; frequency := 200; pattern := sharp;
     v_duration := 100 |}.

(** *** Event listeners *)

(** A registered callback is known by its identity: [indexOf] compares
    function references. *)
Definition Listener := nat.

(** [initializeEventListeners]: the map of the constructor. *)
Definition initializeEventListeners : gmap string (list Listener) :=
  <["error" := []]> (<["batteryUpdate" := []]> (<["disconnected" := []]>
    (<["connected" := []]> ∅))).

(** [this.eventListeners.get(event) || []]. *)
Definition listeners_of (event : string) (eventListeners : gmap string (list Listener))
  : list Listener :=
  default [] (eventListeners !! event).

Definition addEventListener (event : string) (callback : Listener)
    (eventListeners : gmap string (list Listener)) : gmap string (list Listener) :=
  let listeners := listeners_of event eventListeners in
  <[event := listeners ++ [callback]]> eventListeners.

(** [Array.prototype.indexOf], -1 when absent. *)
Fixpoint indexOf (callback : Listener) (listeners : list Listener) : Z :=
  match listeners with
  | [] => -1
  | l :: rest =>
      if decide (l = callback) then 0
      else let index := indexOf callback rest in
           if index =? -1 then -1 else index + 1
  end.

(** [removeEventListener]: [splice] edits the array held by the map; for an
    event without an entry the array is a fresh one and the map is left
    alone. *)
Definition removeEventListener (event : string) (callback : Listener)
    (eventListeners : gmap string (list Listener)) : gmap string (list Listener) :=
  match eventListeners !! event with
  | Some listeners =>
      let index := indexOf callback listeners in
      if index >? -1
      then <[event := delete (Z.to_nat index) listeners]> eventListeners
      else eventListeners
  | None => eventListeners
  end.



(** *** Battery notifications *)

(** The listener of [characteristicvaluechanged] installed by
    [startBatteryMonitoring], lines 237-246; [value] is [target.value]. *)
Definition onBatteryValueChanged (value : option ArrayBuffer) : M unit :=
  match value with
  | Some data =>
      let! batteryLevel := await (getUint8 0 data) in
      let! this := get in
      match deviceInfo this with
      | Some info =>
          set_deviceInfo (Some
            {| id := id info; name := name info; connected := connected info;
               batteryLevel := batteryLevel;
               firmwareVersion := firmwareVersion info;
               capabilities := capabilities info |}) ;;
          emit (batteryUpdate_event batteryLevel)
      | None => ret tt
      end
  | None => ret tt
  end.

(** [hasCapability]. *)
Definition hasCapability (X : DeviceCapabilities → bool) (this : HapticController) : bool :=
  capability X this.

(** *** Vocabulary of the further properties *)

Definition is_byte (b : Z) : Prop := 0 <= b < 256.

(** The number two bytes spell, low byte first. *)
Definition u16_le (lo hi : Z) : Z := lo + 256 * hi.

(** The number a byte spells in two's complement. *)
Definition int8_of_byte (b : Z) : Z := if b <? 128 then b else b - 256.

(** The pattern a code stands for on the device side. *)
Definition pattern_of_code (code : Z) : option Pattern :=
  if code =? 1 then Some sharp
  else if code =? 2 then Some soft
  else if code =? 3 then Some medium
  else if code =? 4 then Some pulse
  else None.

(** The bitmask of byte 4 of a status payload. *)
Definition capability_mask (c : DeviceCapabilities) : Z :=
  (if vibration c then 1 else 0) + (if temperature c then 2 else 0) +
  (if pressure c then 4 else 0) + (if flex c then 8 else 0).


(** What the controller did to the outside world, and its link state. *)
Definition same_trace (this this' : HapticController) : Prop :=
  emitted this' = emitted this ∧ written this' = written this ∧
  isConnected this' = isConnected this.

(** [info] with its [connected] flag cleared. *)
Definition marked_disconnected (info : FingerDevice) : FingerDevice :=
  {| id := id info; name := name info; connected := false;
     batteryLevel := batteryLevel info;
     firmwareVersion := firmwareVersion info;
     capabilities := capabilities info |}.

(** [info] with another battery level. *)
Definition with_battery (level : Z) (info : FingerDevice) : FingerDevice :=
  {| id := id info; name := name info; connected := connected info;
     batteryLevel := level;
     firmwareVersion := firmwareVersion info;
     capabilities := capabilities info |}.

(** A stack that refuses every write. *)
Definition refusing_stack : Bluetooth :=
  {| available := true;
     requestDevice := λ deviceName, Normal {| dev_id := "A1"; dev_name := Some deviceName |};
     gatt_connect := λ _, Normal tt;
     getPrimaryService := λ _, Normal tt;
     getCharacteristic := λ u, Normal {| uuid := u |};
     readValue := λ _, Normal [87; 2; 1; 0; 3];
     writeValue := λ _ _ _, Some "GATT operation failed" |}.

(** A connected controller that found no characteristic at all. *)
Definition bare_controller : HapticController :=
  {| device := device connected_controller;
     server := true; service := true;
     characteristics := ∅;
     isConnected := true;
     deviceInfo := deviceInfo connected_controller;
     batteryMonitoring := false; emitted := []; written := [] |}.


End Haptic.

(** ** The object detector *)

Module Yolo.

Local Open Scope Q_scope.

(** *** Types of [src/types] used by the detector *)

Module Point2D.
Record t := { x : Q; y : Q }.
End Point2D.

Record BoundingBox := {
  x : Q;
  y : Q;
  width : Q;
  height : Q
}.

Record DetectionResult := {
  id : string;
  class : string;
  confidence : Q;
  bbox : BoundingBox;
  center : Point2D.t;
  timestamp : Z
}.

Record YOLOConfig := {
  modelUrl : string;
  confidenceThreshold : Q;
  nmsThreshold : Q;
  targetClasses : list string;
  inputSize : nat
}.

Module ImageData.
Record t := { width : nat; height : nat; data : list Z }.
End ImageData.

(** The 80 COCO labels of [initializeClassNames]. *)
Definition classNames : list string :=
  [ "person"; "bicycle"; "car"; "motorcycle"; "airplane"; "bus"; "train"; "truck";
    "boat"; "traffic light"; "fire hydrant"; "stop sign"; "parking meter"; "bench";
    "bird"; "cat"; "dog"; "horse"; "sheep"; "cow"; "elephant"; "bear"; "zebra";
    "giraffe"; "backpack"; "umbrella"; "handbag"; "tie"; "suitcase"; "frisbee";
    "skis"; "snowboard"; "sports ball"; "kite"; "baseball bat"; "baseball glove";
    "skateboard"; "surfboard"; "tennis racket"; "bottle"; "wine glass"; "cup";
    "fork"; "knife"; "spoon"; "bowl"; "banana"; "apple"; "sandwich"; "orange";
    "broccoli"; "carrot"; "hot dog"; "pizza"; "donut"; "cake"; "chair"; "couch";
    "potted plant"; "bed"; "dining table"; "toilet"; "tv"; "laptop"; "mouse";
    "remote"; "keyboard"; "cell phone"; "microwave"; "oven"; "toaster"; "sink";
    "refrigerator"; "book"; "clock"; "vase"; "scissors"; "teddy bear"; "hair drier";
    "toothbrush" ].

(** *** Geometry *)

Definition calculateIoU (box1 box2 : BoundingBox) : Q :=
  let x1 := Qmax (x box1) (x box2) in
  let y1 := Qmax (y box1) (y box2) in
  let x2 := Qmin (x box1 + width box1) (x box2 + width box2) in
  let y2 := Qmin (y box1 + height box1) (y box2 + height box2) in
  if le x2 x1 || le y2 y1 then 0
  else
    let intersection := (x2 - x1) * (y2 - y1) in
    let area1 := width box1 * height box1 in
    let area2 := width box2 * height box2 in
    let union := area1 + area2 - intersection in
    intersection / union.

(** *** Non-maximum suppression *)

(** [Array.prototype.sort(comparefn)] is stable: with a consistent
    comparator its result is the one ordered arrangement that keeps equal
    elements in their original order.  It is computed here by inserting
    each element, last to first, in front of the sorted rest: [a] moves
    behind [b] only when [comparefn(a, b) > 0]. *)
Fixpoint sort_insert {A} (comparefn : A → A → Q) (a : A) (sorted : list A) : list A :=
  match sorted with
  | [] => [a]
  | b :: rest =>
      if gt (comparefn a b) 0
      then b :: sort_insert comparefn a rest
      else a :: b :: rest
  end.

Definition sort {A} (comparefn : A → A → Q) (l : list A) : list A :=
  foldr (sort_insert comparefn) [] l.

(** The inner loop of [applyNMS], lines 289-296, from index [j] on; [rest]
    is [detections.slice(j)]. *)
Fixpoint suppress_loop (config : YOLOConfig) (box_i : BoundingBox) (j : nat)
    (rest : list DetectionResult) (suppressed : gset nat) : gset nat :=
  match rest with
  | [] => suppressed
  | detection_j :: rest' =>
      let suppressed' :=
        if decide (j ∈ suppressed) then suppressed
        else
          let iou := calculateIoU box_i (bbox detection_j) in
          if gt iou (nmsThreshold config) then {[ j ]} ∪ suppressed else suppressed in
      suppress_loop config box_i (S j) rest' suppressed'
  end.

(** The outer loop, lines 283-297, from index [i] on; [rest] is
    [detections.slice(i)]. *)
Fixpoint keep_loop (config : YOLOConfig) (i : nat) (rest : list DetectionResult)
    (suppressed : gset nat) (keep : list DetectionResult) : list DetectionResult :=
  match rest with
  | [] => keep
  | detection_i :: rest' =>
      if decide (i ∈ suppressed)
      then keep_loop config (S i) rest' suppressed keep
      else
        keep_loop config (S i) rest'
          (suppress_loop config (bbox detection_i) (S i) rest' suppressed)
          (keep ++ [detection_i])
  end.

(** The comparator of line 278, [(a, b) => b.confidence - a.confidence]. *)
Definition by_confidence (a b : DetectionResult) : Q := confidence b - confidence a.

Definition applyNMS (config : YOLOConfig) (detections : list DetectionResult)
  : list DetectionResult :=
  if decide (length detections = 0%nat) then []
  else
    let detections := sort by_confidence detections in
    keep_loop config 0 detections ∅ [].

(** *** Postprocessing *)

(** One round of the loop over the class scores, lines 233-238.  [None]: a
    score was read past the end of [output]. *)
Definition class_step (output : list Q) (offset : nat) (acc : option (Q * nat)) (j : nat)
  : option (Q * nat) :=
  '(maxClassConfidence, maxClassIndex) ← acc;
  classConfidence ← output !! (offset + 5 + j)%nat;
  Some (if gt classConfidence maxClassConfidence
        then (classConfidence, j)
        else (maxClassConfidence, maxClassIndex)).

(** The loop over the 80 class scores, lines 230-239, from
    [maxClassConfidence = 0] and [maxClassIndex = 0]. *)
Definition maxClass (output : list Q) (offset : nat) : option (Q * nat) :=
  foldl (class_step output offset) (Some (0, 0%nat)) (seq 0 80).

(** What lines 215-257 decide about candidate [i]: one of the three
    [continue]s, or the fields of the detection to push. *)
Inductive Filtered :=
| below_objectness
| below_confidence
| not_target
| survivor (className : string) (finalConfidence : Q)
    (box : BoundingBox) (centre : Point2D.t).

Definition filterCandidate (config : YOLOConfig) (output : list Q)
    (scaleX scaleY : Q) (i : nat) : option Filtered :=
  let offset := (i * 85)%nat in
  centerX ← (λ v, v * scaleX) <$> output !! offset;
  centerY ← (λ v, v * scaleY) <$> output !! (offset + 1)%nat;
  width ← (λ v, v * scaleX) <$> output !! (offset + 2)%nat;
  height ← (λ v, v * scaleY) <$> output !! (offset + 3)%nat;
  confidence ← output !! (offset + 4)%nat;
  if lt confidence (confidenceThreshold config) then Some below_objectness
  else
    '(maxClassConfidence, maxClassIndex) ← maxClass output offset;
    let finalConfidence := confidence * maxClassConfidence in
    if lt finalConfidence (confidenceThreshold config) then Some below_confidence
    else
      className ← classNames !! maxClassIndex;
      if negb (bool_decide (className ∈ targetClasses config)) then Some not_target
      else
        let x := centerX - width / 2 in
        let y := centerY - height / 2 in
        Some (survivor className finalConfidence
                {| x := x; y := y; width := width; height := height |}
                {| Point2D.x := centerX; Point2D.y := centerY |}).

(** The wall clock: [now k] is what the [k]-th call of [Date.now()] returns. *)
Definition Clock := nat → Z.

(** One round of the loop of [postprocessResults]; [ticks] counts the calls
    of [Date.now()] so far. *)
Definition candidate (config : YOLOConfig) (output : list Q) (scaleX scaleY : Q)
    (now : Clock) (i : nat) (state : list DetectionResult * nat)
  : option (list DetectionResult * nat) :=
  let '(detections, ticks) := state in
  f ← filterCandidate config output scaleX scaleY i;
  match f with
  | survivor className finalConfidence box centre =>
      Some (detections ++
              [ {| id := className +:+ "_" +:+ pretty (now ticks) +:+ "_" +:+ pretty i;
                   class := className;
                   confidence := finalConfidence;
                   bbox := box;
                   center := centre;
                   timestamp := now (S ticks) |} ],
            S (S ticks))
  | _ => Some (detections, ticks)
  end.

(** The number of [i = 0, 1, ...] with [i < output.length / 85]. *)
Definition rounds (output : list Q) : nat :=
  Z.to_nat (Qceiling (inject_Z (Z.of_nat (length output)) / 85)).

Definition decode (config : YOLOConfig) (output : list Q) (scaleX scaleY : Q)
    (now : Clock) (ticks : nat) : option (list DetectionResult * nat) :=
  foldl (λ state i, state ≫= candidate config output scaleX scaleY now i)
    (Some ([], ticks)) (seq 0 (rounds output)).

(** [postprocessResults]: the detections, and the clock calls consumed. *)
Definition postprocessResults (config : YOLOConfig) (output : list Q)
    (scaleX scaleY : Q) (now : Clock) (ticks : nat)
  : option (list DetectionResult * nat) :=
  '(detections, ticks') ← decode config output scaleX scaleY now ticks;
  Some (applyNMS config detections, ticks').

(** *** The session manager *)

(** A loaded model is a handle of the inference engine. *)
Definition InferenceSession := nat.

(** [new ort.Tensor('float32', data, dims)]; an element computed from
    [undefined] is NaN, written [None]. *)
Record Tensor := {
  t_data : list (option Q);
  dims : list nat
}.

(** The answers of the browser: the HEAD request for the model
    ([response.ok]), the engine, the canvas round trip that yields the
    RGBA bytes of the frame scaled to [inputSize] squared, and the clock. *)
Record Browser := {
  fetch_ok : string → Completion bool;
  create_session : string → Completion InferenceSession;
  canvas_scale : ImageData.t → nat → Completion (list Z);
  session_run : InferenceSession → Tensor → Completion (gmap string (list Q));
  now : Clock
}.

Record YOLO11Detector := {
  session : option InferenceSession;
  config : YOLOConfig;
  isInitialized : bool
}.

Definition new_YOLO11Detector (config : YOLOConfig) : YOLO11Detector :=
  {| session := None; config := config; isInitialized := false |}.

Definition initialize (env : Browser) (this : YOLO11Detector) : bool * YOLO11Detector :=
  match fetch_ok env (modelUrl (config this)) with
  | Normal true =>
      match create_session env (modelUrl (config this)) with
      | Normal s =>
          (true, {| session := Some s; config := config this; isInitialized := true |})
      | Throw _ => (false, this)
      end
  | _ => (false, this)
  end.

Definition dispose (this : YOLO11Detector) : YOLO11Detector :=
  {| session := None; config := config this; isInitialized := false |}.

Definition byte_to_unit (v : option Z) : option Q :=
  (λ b, inject_Z b / 255) <$> v.

(** [preprocessImage]: the scale factors, and the planar tensor filled by
    the loop of lines 188-196.  A configured [inputSize] of 0 divides by
    zero and is outside the model. *)
Definition preprocessImage (env : Browser) (config : YOLOConfig) (imageData : ImageData.t)
  : Completion (Tensor * Q * Q) :=
  let inputSize := inputSize config in
  let scaleX := inject_Z (Z.of_nat (ImageData.width imageData)) / inject_Z (Z.of_nat inputSize) in
  let scaleY := inject_Z (Z.of_nat (ImageData.height imageData)) / inject_Z (Z.of_nat inputSize) in
  cbind (canvas_scale env imageData inputSize) (λ scaledData,
    let plane := (inputSize * inputSize)%nat in
    let tensor :=
      foldl
        (λ tensor i,
           let pixelIndex := (i * 4)%nat in
           let tensorIndex := i in
           <[(tensorIndex + 2 * plane)%nat := byte_to_unit (scaledData !! (pixelIndex + 2)%nat)]>
             (<[(tensorIndex + plane)%nat := byte_to_unit (scaledData !! (pixelIndex + 1)%nat)]>
                (<[tensorIndex := byte_to_unit (scaledData !! pixelIndex)]> tensor)))
        (replicate (1 * 3 * plane) (Some 0)) (seq 0 plane) in
    Normal ({| t_data := tensor; dims := [1; 3; inputSize; inputSize]%nat |}, scaleX, scaleY)).

Definition ctry {A} (body : Completion A) (handler : string → Completion A) : Completion A :=
  match body with
  | Normal a => Normal a
  | Throw message => handler message
  end.

(** [detect]: [Throw] is the rejected promise; [Normal (Some ds)] resolves
    with [ds]; [Normal None] resolves with detections decoded from reads
    past the end of the raw output, which the model does not describe. *)
Definition detect (env : Browser) (this : YOLO11Detector) (imageData : ImageData.t)
    (ticks : nat) : Completion (option (list DetectionResult)) :=
  match isInitialized this, session this with
  | true, Some session =>
      ctry
        (cbind (preprocessImage env (config this) imageData) (λ '(tensor, scaleX, scaleY),
         cbind (session_run env session tensor) (λ results,
         cbind (match results !! "output0" with
                | Some output0 => Normal output0
                | None => Throw "Cannot read properties of undefined"
                end) (λ output,
         Normal (fst <$> postprocessResults (config this) output scaleX scaleY
                           (now env) ticks)))))
        (λ _, Normal (Some []))
  | _, _ => Throw "YOLO11检测器未初始化"
  end.

(** *** Vocabulary of the detector's properties *)


Definition area (b : BoundingBox) : Q := width b * height b.





(** [kept] suppresses [candidate]: their IoU exceeds the threshold. *)
Definition suppresses (config : YOLOConfig) (kept candidate : DetectionResult) : bool :=
  gt (calculateIoU (bbox kept) (bbox candidate)) (nmsThreshold config).

(** The detections of [l] that survive, in order: one survives when no
    detection kept before it suppresses it. *)
Fixpoint select (config : YOLOConfig) (kept l : list DetectionResult)
  : list DetectionResult :=
  match l with
  | [] => []
  | d :: rest =>
      if existsb (λ k, suppresses config k d) kept
      then select config kept rest
      else d :: select config (kept ++ [d]) rest
  end.

(** Confidence does not increase along the list. *)
Definition descending (l : list DetectionResult) : Prop :=
  StronglySorted (λ a b, confidence b <= confidence a) l.

(** The state [Ready]: the model was loaded and its session is held. *)
Definition Ready (this : YOLO11Detector) : Prop :=
  isInitialized this = true ∧ is_Some (session this).

(** A step of [detect] inside the [try] throws: preprocessing, the
    inference run, or reading [output0] off its result. *)
Definition pipeline_fails (env : Browser) (this : YOLO11Detector)
    (imageData : ImageData.t) : Prop :=
  (∃ m, preprocessImage env (config this) imageData = Throw m) ∨
  (∃ s tensor scaleX scaleY,
      session this = Some s ∧
      preprocessImage env (config this) imageData = Normal (tensor, scaleX, scaleY) ∧
      ((∃ m, session_run env s tensor = Throw m) ∨
       (∃ results, session_run env s tensor = Normal results ∧
                   results !! "output0" = None))).

(** The thresholds and target classes the application starts with, for a
    network input of 2 by 2. *)
Definition example_config : YOLOConfig :=
  {| modelUrl := "/models/yolo11n.onnx";
     confidenceThreshold := 0.5;
     nmsThreshold := 0.4;
     targetClasses := ["person"; "cup"; "bottle"; "book"; "cell phone"; "laptop"];
     inputSize := 2 |}.

(** A browser whose engine fails at every run. *)
Definition failing_engine : Browser :=
  {| fetch_ok := λ _, Normal true;
     create_session := λ _, Normal 1%nat;
     canvas_scale := λ _ _, Normal (replicate 16 0%Z);
     session_run := λ _ _, Throw "inference failed";
     now := λ _, 0%Z |}.

Definition blank_frame : ImageData.t :=
  {| ImageData.width := 2; ImageData.height := 2; ImageData.data := replicate 16 0%Z |}.

(** The objectness of candidate [i] and the maximum class score the loop
    of lines 230-239 finds for it (the maximum of 0 and the 80 scores). *)
Definition candidate_scores (output : list Q) (i : nat) : option (Q * Q) :=
  confidence ← output !! (i * 85 + 4)%nat;
  '(maxClassConfidence, _) ← maxClass output (i * 85);
  Some (confidence, maxClassConfidence).

(** The candidate got past both comparisons with [confidenceThreshold]. *)
Definition passes_threshold (f : Filtered) : bool :=
  match f with
  | below_objectness | below_confidence => false
  | not_target | survivor _ _ _ _ => true
  end.

(** No class score of candidate [i] exceeds 1. *)
Definition class_scores_at_most_one (output : list Q) (i : nat) : Prop :=
  ∀ j v, (j < 80)%nat → output !! (i * 85 + 5 + j)%nat = Some v → v <= 1.

(** A record of 85 numbers: box, objectness, then one score at [cls]. *)
Definition record (box : list Q) (objectness : Q) (cls : nat) (score : Q) : list Q :=
  box ++ [objectness] ++ replicate cls 0 ++ [score] ++ replicate (79 - cls) 0.

(** Two detections that agree on everything but [id] and [timestamp]. *)
Definition same_content (d1 d2 : DetectionResult) : Prop :=
  class d1 = class d2 ∧ confidence d1 = confidence d2 ∧
  bbox d1 = bbox d2 ∧ center d1 = center d2.

(** The detections of confidence [c]. *)
Definition of_confidence (c : Q) (d : DetectionResult) : Prop := confidence d == c.

#[export] Instance of_confidence_dec c d : Decision (of_confidence c d) :=
  Qeq_dec (confidence d) c.

Definition person_output : list Q := record [320; 240; 100; 80] (9 # 10) 0 (9 # 10).

(** Two candidates of equal confidence far apart, then a stronger one. *)
Definition tied_output : list Q :=
  record [100; 100; 20; 20] (8 # 10) 0 1 ++
  record [400; 400; 20; 20] (8 # 10) 41 1 ++
  record [250; 250; 20; 20] (9 # 10) 39 1.

Definition early : Clock := λ _, 1000%Z.
Definition late : Clock := λ _, 2000%Z.

(** The states of the decoding loop under two clocks: both undefined, or
    detections with the same content. *)
Definition same_state (s1 s2 : option (list DetectionResult * nat)) : Prop :=
  option_Forall2 (λ a b, Forall2 same_content (fst a) (fst b)) s1 s2.


(** *** The remaining methods of the detector *)

(** [Partial<YOLOConfig>]: the fields an update carries. *)
Record PartialYOLOConfig := {
  new_modelUrl : option string;
  new_confidenceThreshold : option Q;
  new_nmsThreshold : option Q;
  new_targetClasses : option (list string);
  new_inputSize : option nat
}.

(** [{ ...this.config, ...config }]. *)
Definition spread (old : YOLOConfig) (config : PartialYOLOConfig) : YOLOConfig :=
  {| modelUrl := default (modelUrl old) (new_modelUrl config);
     confidenceThreshold :=
       default (confidenceThreshold old) (new_confidenceThreshold config);
     nmsThreshold := default (nmsThreshold old) (new_nmsThreshold config);
     targetClasses := default (targetClasses old) (new_targetClasses config);
     inputSize := default (inputSize old) (new_inputSize config) |}.

Definition updateConfig (config : PartialYOLOConfig) (this : YOLO11Detector)
  : YOLO11Detector :=
  {| session := session this;
     config := spread (Yolo.config this) config;
     isInitialized := isInitialized this |}.

(** [getSupportedClasses]: a copy of the labels. *)
Definition getSupportedClasses (this : YOLO11Detector) : list string := classNames.

(** The getter [initialized]. *)
Definition initialized (this : YOLO11Detector) : bool := isInitialized this.

(** *** Vocabulary of the further properties *)

(** The detectors a program can hold: built by the constructor, then
    initialised, reconfigured and disposed of in any order. *)
Inductive reachable : YOLO11Detector → Prop :=
| reach_new config : reachable (new_YOLO11Detector config)
| reach_initialize env this : reachable this → reachable (snd (initialize env this))
| reach_update config this : reachable this → reachable (updateConfig config this)
| reach_dispose this : reachable this → reachable (dispose this).





(** A browser that cannot fetch the model. *)
Definition failing_fetch : Browser :=
  {| fetch_ok := λ _, Throw "Failed to fetch";
     create_session := λ _, Normal 2%nat;
     canvas_scale := λ imageData _, Normal (ImageData.data imageData);
     session_run := λ _ _, Normal ∅;
     now := λ _, 0%Z |}.

(** A canvas that hands back the frame it was given. *)
Definition plain_canvas : Browser :=
  {| fetch_ok := λ _, Normal true;
     create_session := λ _, Normal 1%nat;
     canvas_scale := λ imageData _, Normal (ImageData.data imageData);
     session_run := λ _ _, Normal ∅;
     now := λ _, 0%Z |}.

(** Four pixels: red, green, blue, white. *)
Definition four_pixels : ImageData.t :=
  {| ImageData.width := 2; ImageData.height := 2;
     ImageData.data :=
       [255; 0; 0; 255;  0; 255; 0; 255;  0; 0; 255; 255;  255; 255; 255; 255]%Z |}.

(** Three detections: a strong one, a weaker one on top of it, and a weak
    one elsewhere. *)
Definition detection (name : string) (c : Q) (b : BoundingBox) : DetectionResult :=
  {| id := name; class := "cup"; confidence := c; bbox := b;
     center := {| Point2D.x := x b + width b / 2; Point2D.y := y b + height b / 2 |};
     timestamp := 0 |}.

Definition crowded : list DetectionResult :=
  [ detection "b" (7 # 10) {| x := 1; y := 0; width := 10; height := 10 |};
    detection "a" (9 # 10) {| x := 0; y := 0; width := 10; height := 10 |};
    detection "c" (6 # 10) {| x := 50; y := 50; width := 10; height := 10 |} ].

End Yolo.

(** * Binary64 arithmetic on whole numbers and on the unit interval *)

Module Binary64Props.

Import Binary64.
Local Open Scope Z_scope.

Lemma digits2_log2 (p : positive) : Z.pos (digits2_pos p) = Z.log2 (Z.pos p) + 1.
Proof.
  induction p as [p IH|p IH|]; cbn [digits2_pos]; rewrite ?Pos2Z.inj_succ, ?IH.
  - change (Z.pos p~1) with (2 * Z.pos p + 1). rewrite Z.log2_succ_double by lia. lia.
  - change (Z.pos p~0) with (2 * Z.pos p). rewrite Z.log2_double by lia. lia.
  - reflexivity.
Qed.

Lemma Zpos_iter_xO (p k : positive) : Z.pos (Pos.iter xO p k) = Z.pos p * 2 ^ Z.pos k.
Proof.
  induction k as [|k IH] using Pos.peano_ind.
  - cbn. lia.
  - rewrite Pos.iter_succ, Pos2Z.inj_succ, Z.pow_succ_r by lia.
    change (Z.pos (Pos.iter xO p k)~0) with (2 * Z.pos (Pos.iter xO p k)). lia.
Qed.

(** Shifting right what was shifted left loses nothing. *)
Lemma iter_shr_1_exact (n q : positive) :
  SpecFloat.iter_pos shr_1 n {| shr_m := Z.pos (Pos.iter xO q n); shr_r := false; shr_s := false |}
  = {| shr_m := Z.pos q; shr_r := false; shr_s := false |}.
Proof.
  revert q. induction n as [n IH|n IH|]; intros q; cbn [SpecFloat.iter_pos Pos.iter shr_1 orb].
  - now rewrite !IH.
  - now rewrite !IH.
  - reflexivity.
Qed.

(** The general right shift: the mantissa is halved [n] times. *)
Lemma shr_1_m (r : shr_record) : 0 <= shr_m r → shr_m (shr_1 r) = shr_m r / 2.
Proof.
  destruct r as [m r s]. cbn [shr_m]. intros Hm.
  destruct m as [|p|p]; [reflexivity| |lia].
  destruct p as [p|p|]; cbn [shr_1 shr_m].
  - apply (Z.div_unique _ _ _ 1); lia.
  - apply (Z.div_unique _ _ _ 0); lia.
  - reflexivity.
Qed.

Lemma iter_shr_1_m (n : positive) (r : shr_record) :
  0 <= shr_m r → shr_m (SpecFloat.iter_pos shr_1 n r) = shr_m r / 2 ^ Z.pos n.
Proof.
  revert r. induction n as [n IH|n IH|]; intros r Hr; cbn [SpecFloat.iter_pos].
  - assert (H0 : 0 <= shr_m (shr_1 r)) by (rewrite shr_1_m by exact Hr; apply Z.div_pos; lia).
    rewrite IH, IH, shr_1_m; [|exact Hr|exact H0|rewrite IH by exact H0; apply Z.div_pos; lia].
    rewrite !Z.div_div by lia. f_equal.
    replace (Z.pos n~1) with (1 + (Z.pos n + Z.pos n)) by lia. rewrite !Z.pow_add_r by lia. lia.
  - rewrite IH, IH; [|exact Hr|rewrite IH by exact Hr; apply Z.div_pos; lia].
    rewrite !Z.div_div by lia. f_equal.
    replace (Z.pos n~0) with (Z.pos n + Z.pos n) by lia. rewrite !Z.pow_add_r by lia. lia.
  - rewrite shr_1_m by exact Hr. reflexivity.
Qed.

Lemma round_exact (s : bool) (n j e : Z) :
  0 < n < 2 ^ 53 → 0 <= j → 52 <= Z.log2 n + j →
  -1074 <= Z.log2 n + j + e - 52 <= 971 →
  binary_round_aux prec emax s (n * 2 ^ j) e loc_Exact
  = S754_finite s (Z.to_pos (n * 2 ^ (52 - Z.log2 n))) (Z.log2 n + j + e - 52).
Proof.
  intros Hn Hj Hd Ht.
  assert (HL : 0 <= Z.log2 n < 53).
  { split; [apply Z.log2_nonneg|]. apply Z.log2_lt_pow2; lia. }
  assert (HM : 0 < n * 2 ^ j) by (apply Z.mul_pos_pos; [lia|apply Z.pow_pos_nonneg; lia]).
  destruct (n * 2 ^ j) as [|m|m] eqn:Em; try lia.
  assert (Hm : Z.pos (digits2_pos m) = Z.log2 n + j + 1).
  { rewrite digits2_log2, <- Em, Z.log2_mul_pow2 by lia. lia. }
  set (q := n * 2 ^ (52 - Z.log2 n)).
  assert (Hq : 0 < q) by (apply Z.mul_pos_pos; [lia|apply Z.pow_pos_nonneg; lia]).
  assert (Hqm : Z.pos m = q * 2 ^ (Z.log2 n + j - 52)).
  { unfold q. rewrite <- Em, <- Z.mul_assoc, <- Z.pow_add_r by lia. do 2 f_equal. lia. }
  assert (Hqd : Z.log2 q = 52).
  { unfold q. rewrite Z.log2_mul_pow2 by lia. lia. }
  unfold binary_round_aux, shr_fexp, fexp, emin, Zdigits2, prec, emax.
  rewrite Hm.
  replace (Z.max (Z.log2 n + j + 1 + e - 53) (3 - 1024 - 53) - e)
    with (Z.log2 n + j - 52) by lia.
  cbn [shr_record_of_loc].
  assert (Hfin : ∀ e',
    e' = Z.log2 n + j + e - 52 →
    (let '(mrs'', e'') :=
       shr (shr_record_of_loc (round_nearest_even q loc_Exact) loc_Exact) e'
         (Z.max (Zdigits2 (round_nearest_even q loc_Exact) + e' - 53) (3 - 1024 - 53) - e') in
     match shr_m mrs'' with
     | 0 => S754_zero s
     | Z.pos m0 => if e'' <=? 1024 - 53 then S754_finite s m0 e'' else S754_infinity s
     | Z.neg _ => S754_nan
     end) = S754_finite s (Z.to_pos q) (Z.log2 n + j + e - 52)).
  { intros e' ->. cbn [round_nearest_even].
    destruct q as [|pq|pq] eqn:Eq; try lia.
    cbn [Zdigits2]. rewrite digits2_log2, Hqd.
    replace (Z.max _ _ - _) with 0 by lia.
    cbn [shr shr_record_of_loc shr_m].
    destruct (Z.leb_spec (Z.log2 n + j + e - 52) (1024 - 53)); [reflexivity|lia]. }
  destruct (Z.log2 n + j - 52) as [|k|k] eqn:Ek; try lia.
  - cbn [shr shr_m loc_of_shr_record].
    replace (Z.pos m) with q by (rewrite Hqm; cbn; lia).
    apply Hfin. lia.
  - cbn [shr].
    assert (Hmk : Z.pos m = Z.pos (Pos.iter xO (Z.to_pos q) k)).
    { rewrite Zpos_iter_xO, Z2Pos.id by lia. exact Hqm. }
    rewrite Hmk, iter_shr_1_exact. cbn [shr_m loc_of_shr_record].
    rewrite Z2Pos.id by lia. apply Hfin. lia.
Qed.

Lemma binary_round_exact (s : bool) (n k e : Z) :
  0 < n < 2 ^ 53 → 0 <= k →
  -1074 <= Z.log2 n + k + e - 52 <= 971 →
  binary_round prec emax s (Z.to_pos (n * 2 ^ k)) e
  = S754_finite s (Z.to_pos (n * 2 ^ (52 - Z.log2 n))) (Z.log2 n + k + e - 52).
Proof.
  intros Hn Hk Ht.
  assert (HL : 0 <= Z.log2 n < 53).
  { split; [apply Z.log2_nonneg|]. apply Z.log2_lt_pow2; lia. }
  assert (HM : 0 < n * 2 ^ k) by (apply Z.mul_pos_pos; [lia|apply Z.pow_pos_nonneg; lia]).
  unfold binary_round, fexp, emin, prec, emax.
  rewrite digits2_log2, Z2Pos.id, Z.log2_mul_pow2 by lia.
  replace (Z.max (k + Z.log2 n + 1 + e - 53) (3 - 1024 - 53))
    with (Z.log2 n + k + e - 52) by lia.
  unfold shl_align.
  destruct (Z.log2 n + k + e - 52 - e) as [|d|d] eqn:Ed.
  - rewrite Z2Pos.id by lia. apply (round_exact s n k e); lia.
  - rewrite Z2Pos.id by lia. apply (round_exact s n k e); lia.
  - rewrite Zpos_iter_xO, Z2Pos.id, <- Z.mul_assoc, <- Z.pow_add_r by lia.
    replace (k + Z.pos d) with (52 - Z.log2 n) by lia.
    pose proof (round_exact s n (52 - Z.log2 n) (Z.log2 n + k + e - 52)) as R.
    unfold prec, emax in R. rewrite R by lia. f_equal. lia.
Qed.

Lemma normalize_exact (n k e : Z) :
  Z.abs n < 2 ^ 53 → 0 <= k → n ≠ 0 →
  -1074 <= Z.log2 (Z.abs n) + k + e - 52 <= 971 →
  binary_normalize prec emax (n * 2 ^ k) e false
  = S754_finite (n <? 0) (Z.to_pos (Z.abs n * 2 ^ (52 - Z.log2 (Z.abs n))))
      (Z.log2 (Z.abs n) + k + e - 52).
Proof.
  intros Hn Hk H0 Ht.
  assert (Hp : 0 < 2 ^ k) by (apply Z.pow_pos_nonneg; lia).
  unfold binary_normalize.
  destruct (n * 2 ^ k) as [|m|m] eqn:Em.
  - apply Z.mul_eq_0 in Em. lia.
  - assert (0 < n) by nia.
    replace (Z.abs n) with n in * by lia.
    replace (n <? 0) with false by (symmetry; apply Z.ltb_ge; lia).
    rewrite <- (binary_round_exact false n k e) by lia. now rewrite Em.
  - assert (n < 0) by nia.
    replace (n <? 0) with true by (symmetry; apply Z.ltb_lt; lia).
    rewrite <- (binary_round_exact true (Z.abs n) k e) by lia.
    replace (Z.abs n * 2 ^ k) with (Z.pos m) by lia. reflexivity.
Qed.

Lemma of_Z_repr (n : Z) : Z.abs n < 2 ^ 53 → of_Z n = repr n.
Proof.
  intros Hn. unfold of_Z, repr. destruct (Z.eq_dec n 0) as [->|H0]; [reflexivity|].
  assert (HL : 0 <= Z.log2 (Z.abs n) < 53).
  { split; [apply Z.log2_nonneg|]. apply Z.log2_lt_pow2; lia. }
  replace n with (n * 2 ^ 0) at 1 by lia.
  rewrite normalize_exact by lia.
  destruct n; [lia| |]; f_equal; lia.
Qed.

Lemma shl_align_fst (m : positive) (e ez : Z) :
  ez <= e → Z.pos (fst (shl_align m e ez)) = Z.pos m * 2 ^ (e - ez).
Proof.
  intros H. unfold shl_align.
  destruct (ez - e) as [|d|d] eqn:Ed; cbn [fst]; try lia.
  - replace (e - ez) with 0 by lia. lia.
  - rewrite Zpos_iter_xO. do 2 f_equal. lia.
Qed.

Lemma log2_abs_bound (n : Z) : Z.abs n < 2 ^ 53 → 0 <= Z.log2 (Z.abs n) < 53.
Proof.
  intros Hn. split; [apply Z.log2_nonneg|].
  destruct (Z.eq_dec n 0) as [->|H0]; [reflexivity|]. apply Z.log2_lt_pow2; lia.
Qed.

(** The aligned mantissa of [repr n], with its sign. *)
Lemma repr_aligned (n ez : Z) :
  Z.abs n < 2 ^ 53 → n ≠ 0 → ez <= Z.log2 (Z.abs n) - 52 → ez <= 0 →
  cond_Zopp (n <? 0)
    (Z.pos (fst (shl_align (Z.to_pos (Z.abs n * 2 ^ (52 - Z.log2 (Z.abs n))))
                   (Z.log2 (Z.abs n) - 52) ez)))
  = n * 2 ^ (- ez).
Proof.
  intros Hn H0 He He0. pose proof (log2_abs_bound n Hn) as HL.
  assert (Hp : 0 < 2 ^ (52 - Z.log2 (Z.abs n))) by (apply Z.pow_pos_nonneg; lia).
  assert (Hq : 0 < Z.abs n * 2 ^ (52 - Z.log2 (Z.abs n))) by (apply Z.mul_pos_pos; lia).
  rewrite shl_align_fst, Z2Pos.id by lia.
  rewrite <- Z.mul_assoc, <- Z.pow_add_r by lia.
  replace (52 - Z.log2 (Z.abs n) + (Z.log2 (Z.abs n) - 52 - ez)) with (- ez) by lia.
  unfold cond_Zopp. destruct (Z.ltb_spec n 0); nia.
Qed.

Lemma add_repr (a b : Z) :
  Z.abs a < 2 ^ 53 → Z.abs b < 2 ^ 53 → Z.abs (a + b) < 2 ^ 53 →
  add (repr a) (repr b) = repr (a + b).
Proof.
  intros Ha Hb Hab.
  destruct (Z.eq_dec a 0) as [->|Ha0].
  { destruct b; reflexivity. }
  destruct (Z.eq_dec b 0) as [->|Hb0].
  { rewrite Z.add_0_r. destruct a; reflexivity. }
  pose proof (log2_abs_bound a Ha) as HLa. pose proof (log2_abs_bound b Hb) as HLb.
  pose proof (log2_abs_bound _ Hab) as HLab.
  transitivity
    (binary_normalize prec emax
       ((a + b) * 2 ^ (- Z.min (Z.log2 (Z.abs a) - 52) (Z.log2 (Z.abs b) - 52)))
       (Z.min (Z.log2 (Z.abs a) - 52) (Z.log2 (Z.abs b) - 52)) false).
  { destruct a as [|pa|pa]; [lia| |]; (destruct b as [|pb|pb]; [lia| |]);
      unfold repr, add, SFadd; cbv zeta; rewrite !repr_aligned by lia; f_equal; lia. }
  destruct (Z.eq_dec (a + b) 0) as [E|E].
  { rewrite E. reflexivity. }
  rewrite normalize_exact by lia.
  unfold repr. destruct (a + b) eqn:Eab; [lia| |]; f_equal; lia.
Qed.

Lemma sub_repr (a b : Z) :
  Z.abs a < 2 ^ 53 → Z.abs b < 2 ^ 53 → Z.abs (a - b) < 2 ^ 53 →
  sub (repr a) (repr b) = repr (a - b).
Proof.
  intros Ha Hb Hab.
  destruct (Z.eq_dec b 0) as [->|Hb0].
  { rewrite Z.sub_0_r. destruct a; reflexivity. }
  destruct (Z.eq_dec a 0) as [->|Ha0].
  { destruct b as [|pb|pb]; [lia| |]; reflexivity. }
  pose proof (log2_abs_bound a Ha) as HLa. pose proof (log2_abs_bound b Hb) as HLb.
  pose proof (log2_abs_bound _ Hab) as HLab.
  transitivity
    (binary_normalize prec emax
       ((a - b) * 2 ^ (- Z.min (Z.log2 (Z.abs a) - 52) (Z.log2 (Z.abs b) - 52)))
       (Z.min (Z.log2 (Z.abs a) - 52) (Z.log2 (Z.abs b) - 52)) false).
  { destruct a as [|pa|pa]; [lia| |]; (destruct b as [|pb|pb]; [lia| |]);
      unfold repr, sub, SFsub; cbv zeta; rewrite !repr_aligned by lia; f_equal; lia. }
  destruct (Z.eq_dec (a - b) 0) as [E|E].
  { rewrite E. reflexivity. }
  rewrite normalize_exact by lia.
  unfold repr. destruct (a - b) eqn:Eab; [lia| |]; f_equal; lia.
Qed.

Lemma mul_repr (a b : Z) :
  0 <= a → 0 <= b → a * b < 2 ^ 53 →
  mul (repr a) (repr b) = repr (a * b).
Proof.
  intros Ha Hb Hab.
  destruct (Z.eq_dec a 0) as [->|Ha0].
  { destruct b; [reflexivity..|lia]. }
  destruct (Z.eq_dec b 0) as [->|Hb0].
  { rewrite Z.mul_0_r. destruct a; [reflexivity..|lia]. }
  assert (Ha' : Z.abs a < 2 ^ 53) by nia. assert (Hb' : Z.abs b < 2 ^ 53) by nia.
  pose proof (log2_abs_bound a Ha') as HLa. pose proof (log2_abs_bound b Hb') as HLb.
  replace (Z.abs a) with a in * by lia. replace (Z.abs b) with b in * by lia.
  assert (HLab : Z.log2 a + Z.log2 b <= Z.log2 (a * b) < 53).
  { split; [apply Z.log2_mul_below; lia|apply Z.log2_lt_pow2; nia]. }
  assert (Hpa : 0 < 2 ^ (52 - Z.log2 a)) by (apply Z.pow_pos_nonneg; lia).
  assert (Hpb : 0 < 2 ^ (52 - Z.log2 b)) by (apply Z.pow_pos_nonneg; lia).
  destruct a as [|pa|pa]; [lia| |lia]. destruct b as [|pb|pb]; [lia| |lia].
  unfold repr, mul, SFmul. cbn [Z.ltb Z.compare xorb].
  rewrite !(Z.abs_eq (Z.pos _)) by lia.
  rewrite Pos2Z.inj_mul, !Z2Pos.id by (apply Z.mul_pos_pos; lia).
  replace (Z.pos pa * 2 ^ (52 - Z.log2 (Z.pos pa)) * (Z.pos pb * 2 ^ (52 - Z.log2 (Z.pos pb))))
    with (Z.pos pa * Z.pos pb * 2 ^ (104 - Z.log2 (Z.pos pa) - Z.log2 (Z.pos pb))).
  2:{ replace (104 - Z.log2 (Z.pos pa) - Z.log2 (Z.pos pb))
        with ((52 - Z.log2 (Z.pos pa)) + (52 - Z.log2 (Z.pos pb))) by lia.
      rewrite Z.pow_add_r by lia. ring. }
  rewrite round_exact by lia.
  change (Z.pos pa * Z.pos pb) with (Z.pos (pa * pb)). cbn [Z.ltb Z.compare].
  rewrite !(Z.abs_eq (Z.pos _)) by lia. f_equal. lia.
Qed.

Lemma compare_mantissas (a b : Z) :
  0 < a < 2 ^ 53 → 0 < b < 2 ^ 53 →
  match Z.log2 a - 52 ?= Z.log2 b - 52 with
  | Lt => Lt
  | Gt => Gt
  | Eq => Pos.compare_cont Eq (Z.to_pos (a * 2 ^ (52 - Z.log2 a)))
            (Z.to_pos (b * 2 ^ (52 - Z.log2 b)))
  end = (a ?= b).
Proof.
  intros Ha Hb.
  assert (HLa : 0 <= Z.log2 a < 53) by (split; [apply Z.log2_nonneg|apply Z.log2_lt_pow2; lia]).
  assert (HLb : 0 <= Z.log2 b < 53) by (split; [apply Z.log2_nonneg|apply Z.log2_lt_pow2; lia]).
  destruct (Z.compare_spec (Z.log2 a - 52) (Z.log2 b - 52)) as [E|E|E].
  - replace (Z.log2 b) with (Z.log2 a) by lia.
    assert (Hp : 0 < 2 ^ (52 - Z.log2 a)) by (apply Z.pow_pos_nonneg; lia).
    change (Pos.compare_cont Eq ?x ?y) with (Pos.compare x y).
    rewrite Pos2Z.inj_compare, !Z2Pos.id by (apply Z.mul_pos_pos; lia).
    destruct (Z.compare_spec a b) as [->|H|H];
      [apply Z.compare_refl|apply Z.compare_lt_iff; nia|apply Z.compare_gt_iff; nia].
  - symmetry. apply Z.compare_lt_iff.
    destruct (Z.lt_ge_cases a b) as [|Hge]; [assumption|].
    pose proof (Z.log2_le_mono b a Hge). lia.
  - symmetry. apply Z.compare_gt_iff.
    destruct (Z.lt_ge_cases b a) as [|Hge]; [assumption|].
    pose proof (Z.log2_le_mono a b Hge). lia.
Qed.

Lemma compare_repr (a b : Z) :
  Z.abs a < 2 ^ 53 → Z.abs b < 2 ^ 53 →
  SFcompare (repr a) (repr b) = Some (a ?= b).
Proof.
  intros Ha Hb.
  destruct a as [|pa|pa], b as [|pb|pb]; try reflexivity.
  - unfold repr, SFcompare. cbn [Z.ltb Z.compare]. rewrite !(Z.abs_eq (Z.pos _)) by lia.
    rewrite compare_mantissas by lia. reflexivity.
  - change (Z.neg pa ?= Z.neg pb) with (CompOpp (Z.pos pa ?= Z.pos pb)).
    rewrite <- (compare_mantissas (Z.pos pa) (Z.pos pb)) by (cbn in *; lia).
    unfold repr, SFcompare. cbn [Z.ltb Z.compare].
    change (Z.abs (Z.neg pa)) with (Z.pos pa). change (Z.abs (Z.neg pb)) with (Z.pos pb).
    destruct (Z.log2 (Z.pos pa) - 52 ?= Z.log2 (Z.pos pb) - 52); reflexivity.
Qed.

Lemma div_same (s : bool) (m : positive) (e : Z) :
  div (S754_finite s m e) (S754_finite s m e) = repr 1.
Proof.
  unfold div, SFdiv, SFdiv_core_binary, Zdigits2, fexp, emin, prec, emax.
  replace (Z.pos (digits2_pos m) + e - (Z.pos (digits2_pos m) + e)) with 0 by lia.
  replace (e - e) with 0 by lia.
  change (((0 - 53) `max` (3 - 1024 - 53)) `min` 0) with (-53).
  change (0 - -53) with 53. cbv beta iota.
  rewrite Z.shiftl_mul_pow2 by lia.
  destruct (Z.div_eucl (Z.pos m * 2 ^ 53) (Z.pos m)) as [q r] eqn:E.
  assert (Hq : q = 2 ^ 53).
  { change q with (fst (q, r)). rewrite <- E. change (fst (Z.div_eucl ?a ?b)) with (a / b).
    rewrite Z.mul_comm. apply Z.div_mul. lia. }
  assert (Hr : r = 0).
  { change r with (snd (q, r)). rewrite <- E. change (snd (Z.div_eucl ?a ?b)) with (a mod b).
    rewrite Z.mul_comm. apply Z.mod_mul. lia. }
  subst q r. rewrite xorb_nilpotent.
  replace (new_location (Z.pos m) 0) with loc_Exact.
  2:{ unfold new_location, new_location_even, new_location_odd.
      destruct (Z.even (Z.pos m)); reflexivity. }
  reflexivity.
Qed.

Lemma shr_spec (m e n : Z) (l : location) :
  0 <= m →
  shr_m (fst (shr (shr_record_of_loc m l) e n)) = m / 2 ^ Z.max n 0 ∧
  snd (shr (shr_record_of_loc m l) e n) = e + Z.max n 0 ∧
  (n <= 0 → fst (shr (shr_record_of_loc m l) e n) = shr_record_of_loc m l).
Proof.
  intros Hm.
  assert (Hl : shr_m (shr_record_of_loc m l) = m) by (destruct l as [|[]]; reflexivity).
  destruct n as [|p|p]; cbn [shr fst snd Z.max Z.compare].
  - rewrite Hl, Z.div_1_r. split; [reflexivity|]. split; [lia|reflexivity].
  - rewrite iter_shr_1_m by lia. rewrite Hl.
    replace (Z.pos p `max` 0) with (Z.pos p) by lia. split; [reflexivity|]. split; [reflexivity|lia].
  - rewrite Hl. replace (Z.neg p `max` 0) with 0 by lia. rewrite Z.div_1_r.
    split; [reflexivity|]. split; [lia|reflexivity].
Qed.

Lemma round_nearest_even_bounds (m : Z) (l : location) :
  m <= round_nearest_even m l <= m + 1.
Proof. destruct l as [|[]]; cbn; try destruct (Z.even m); lia. Qed.

Lemma digits_le (m : Z) (k : Z) : 0 <= k → 0 <= m < 2 ^ k → Zdigits2 m <= k.
Proof.
  intros Hk Hm. destruct m as [|p|p]; cbn [Zdigits2]; try lia.
  rewrite digits2_log2. pose proof (proj1 (Z.log2_lt_pow2 (Z.pos p) k ltac:(lia)) ltac:(lia)). lia.
Qed.

(** Rounding does not cross an integer: a product that stays below [B]
    is rounded to a number whose floor is at most [B]. *)
Lemma round_aux_floor_le (m e B : Z) :
  0 <= m → e <= 0 → 0 <= B < 2 ^ 53 → m < B * 2 ^ (- e) →
  0 <= floor (binary_round_aux prec emax false m e loc_Exact) <= B.
Proof.
  intros Hm He HB Hlt.
  assert (Hdig : ∀ r g, 0 <= r → g <= 0 → r <= B * 2 ^ (- g) →
                        Z.max (Zdigits2 r + g - 53) (-1074) <= 0).
  { intros r g Hr Hg Hrg.
    assert (r < 2 ^ (53 - g)).
    { replace (53 - g) with (53 + - g) by lia. rewrite Z.pow_add_r by lia.
      assert (0 < 2 ^ (- g)) by (apply Z.pow_pos_nonneg; lia). nia. }
    pose proof (digits_le r (53 - g) ltac:(lia) ltac:(lia)). lia. }
  unfold binary_round_aux, shr_fexp, fexp, emin, prec, emax.
  change (3 - 1024 - 53) with (-1074).
  set (n1 := Z.max (Zdigits2 m + e - 53) (-1074) - e).
  pose proof (Hdig m e Hm He ltac:(lia)) as Ht1.
  destruct (shr_spec m e n1 loc_Exact Hm) as (Hm1 & He1 & Hid1).
  destruct (shr (shr_record_of_loc m loc_Exact) e n1) as [mrs1 e1]. cbn [fst snd] in *.
  set (R := round_nearest_even (shr_m mrs1) (loc_of_shr_record mrs1)).
  assert (He1' : e1 <= 0) by lia.
  assert (HR : 0 <= R <= B * 2 ^ (- e1)).
  { pose proof (round_nearest_even_bounds (shr_m mrs1) (loc_of_shr_record mrs1)) as Hb.
    fold R in Hb.
    assert (0 <= shr_m mrs1) by (rewrite Hm1; apply Z.div_pos; [lia|apply Z.pow_pos_nonneg; lia]).
    split; [lia|].
    destruct (Z.le_gt_cases n1 0) as [Hn|Hn].
    - unfold R. rewrite (Hid1 Hn).
      cbn [shr_record_of_loc shr_m loc_of_shr_record round_nearest_even].
      replace e1 with e by lia. lia.
    - replace (n1 `max` 0) with n1 in * by lia.
      assert (Hpow : 2 ^ (- e) = 2 ^ (- e1) * 2 ^ n1).
      { rewrite <- Z.pow_add_r by lia. f_equal. lia. }
      assert (shr_m mrs1 < B * 2 ^ (- e1)).
      { rewrite Hm1. apply Z.div_lt_upper_bound; [apply Z.pow_pos_nonneg; lia|]. nia. }
      lia. }
  set (n2 := Z.max (Zdigits2 R + e1 - 53) (-1074) - e1).
  pose proof (Hdig R e1 ltac:(lia) He1' ltac:(lia)) as Ht2.
  destruct (shr_spec R e1 n2 loc_Exact ltac:(lia)) as (Hm2 & He2 & _).
  destruct (shr (shr_record_of_loc R loc_Exact) e1 n2) as [mrs2 e2]. cbn [fst snd] in *.
  assert (He2' : e2 <= 0) by lia.
  assert (HR2 : 0 <= shr_m mrs2 <= B * 2 ^ (- e2)).
  { rewrite Hm2. split; [apply Z.div_pos; [lia|apply Z.pow_pos_nonneg; lia]|].
    apply Z.div_le_upper_bound; [apply Z.pow_pos_nonneg; lia|].
    assert (Hpow : 2 ^ (- e1) = 2 ^ (n2 `max` 0) * 2 ^ (- e2)).
    { rewrite <- Z.pow_add_r by lia. f_equal. lia. }
    nia. }
  destruct (shr_m mrs2) as [|p|p]; cbn [floor]; try lia.
  destruct (e2 <=? 1024 - 53); cbn [floor cond_Zopp]; [|lia].
  assert (Hs : Z.shiftl (Z.pos p) e2 = Z.pos p / 2 ^ (- e2)).
  { rewrite <- Z.shiftr_div_pow2, <- Z.shiftl_opp_r by lia. f_equal. lia. }
  rewrite Hs.
  split; [apply Z.div_pos; [lia|apply Z.pow_pos_nonneg; lia]|].
  apply Z.div_le_upper_bound; [apply Z.pow_pos_nonneg; lia|]. lia.
Qed.

Lemma floor_repr (n : Z) : Z.abs n < 2 ^ 53 → floor (repr n) = n.
Proof.
  intros Hn. pose proof (log2_abs_bound n Hn) as HL.
  destruct (Z.eq_dec n 0) as [->|H0]; [reflexivity|].
  assert (Hp : 0 < 2 ^ (52 - Z.log2 (Z.abs n))) by (apply Z.pow_pos_nonneg; lia).
  assert (Hq : 0 < Z.abs n * 2 ^ (52 - Z.log2 (Z.abs n))) by (apply Z.mul_pos_pos; lia).
  assert (Hs : ∀ a, Z.shiftl (a * 2 ^ (52 - Z.log2 (Z.abs n))) (Z.log2 (Z.abs n) - 52) = a).
  { intros a. replace (Z.log2 (Z.abs n) - 52) with (- (52 - Z.log2 (Z.abs n))) by lia.
    rewrite Z.shiftl_opp_r, Z.shiftr_div_pow2 by lia. apply Z.div_mul. lia. }
  destruct n as [|p|p]; [lia| |]; unfold repr, floor; cbn [Z.ltb Z.compare cond_Zopp];
    rewrite Z2Pos.id by exact Hq.
  - apply Hs.
  - rewrite <- Z.mul_opp_l. apply Hs.
Qed.

Lemma valid_mantissa (s : bool) (m : positive) (e : Z) :
  valid (S754_finite s m e) = true →
  Z.max (Z.log2 (Z.pos m) + e - 52) (-1074) = e ∧ e <= 971.
Proof.
  unfold valid, valid_binary, bounded, canonical_mantissa, fexp, emin, prec, emax.
  rewrite digits2_log2. intros [H1 H2]%andb_prop.
  apply Z.eqb_eq in H1. apply Z.leb_le in H2. lia.
Qed.

(** A number of [0, 1] times a whole number [c] stays in [0, c]. *)
Lemma floor_mul_unit (x : spec_float) (c : Z) :
  valid x = true → 0 < c < 2 ^ 53 →
  leb (repr 0) x = true → leb x (repr 1) = true →
  0 <= floor (mul x (repr c)) <= c.
Proof.
  intros Hv Hc H0 H1.
  assert (Hcp : (c <? 0) = false) by (apply Z.ltb_ge; lia).
  assert (HLc : 0 <= Z.log2 c < 53).
  { split; [apply Z.log2_nonneg|apply Z.log2_lt_pow2; lia]. }
  assert (Hpc : 0 < 2 ^ (52 - Z.log2 c)) by (apply Z.pow_pos_nonneg; lia).
  destruct x as [s|s| |s m e].
  - destruct c as [|pc|pc]; try lia. unfold mul, SFmul, repr, floor. lia.
  - destruct s; discriminate.
  - discriminate.
  - destruct s; [discriminate|].
    destruct (valid_mantissa _ _ _ Hv) as [Hcan He].
    assert (Hm : Z.pos m < 2 ^ 53).
    { apply Z.log2_lt_pow2; lia. }
    assert (Hone : e < -52 ∨ (e = -52 ∧ Z.pos m <= 2 ^ 52)).
    { unfold leb, SFleb, SFcompare in H1.
      change (repr 1) with (S754_finite false (Z.to_pos (2 ^ 52)) (-52)) in H1.
      cbv beta iota in H1.
      destruct (Z.compare_spec e (-52)) as [E|E|E]; [|left; exact E|discriminate H1].
      right. split; [exact E|].
      change (Pos.compare_cont Eq ?a ?b) with (Pos.compare a b) in H1.
      rewrite Pos2Z.inj_compare, Z2Pos.id in H1 by (apply Z.pow_pos_nonneg; lia).
      destruct (Z.compare_spec (Z.pos m) (2 ^ 52)) as [E'|E'|E']; [lia|lia|discriminate H1]. }
    destruct Hone as [E|[E Hle]].
    2:{ (* x is 1 *)
      assert (HL : Z.log2 (Z.pos m) = 52) by lia.
      pose proof (Z.log2_spec (Z.pos m) ltac:(lia)) as Hs. rewrite HL in Hs.
      assert (Em : m = Z.to_pos (2 ^ 52)).
      { apply Pos2Z.inj. rewrite Z2Pos.id by (apply Z.pow_pos_nonneg; lia). lia. }
      subst m e. change (S754_finite false (Z.to_pos (2 ^ 52)) (-52)) with (repr 1).
      rewrite mul_repr by lia. rewrite Z.mul_1_l, floor_repr by lia. lia. }
    (* x below 1 *)
    { destruct c as [|pc|pc]; try lia.
      unfold mul, SFmul, repr. cbn [Z.ltb Z.compare xorb].
      rewrite !(Z.abs_eq (Z.pos _)) by lia.
      apply round_aux_floor_le; try lia.
      rewrite Pos2Z.inj_mul, Z2Pos.id by (apply Z.mul_pos_pos; lia).
      replace (- (e + (Z.log2 (Z.pos pc) - 52))) with (- e + (52 - Z.log2 (Z.pos pc))) by lia.
      rewrite Z.pow_add_r by lia.
      assert (2 ^ 53 <= 2 ^ (- e)) by (apply Z.pow_le_mono_r; lia).
      nia. }
Qed.

Lemma leb_repr (a b : Z) :
  Z.abs a < 2 ^ 53 → Z.abs b < 2 ^ 53 → leb (repr a) (repr b) = (a <=? b).
Proof.
  intros Ha Hb. unfold leb, SFleb. rewrite compare_repr by assumption.
  unfold Z.leb. destruct (a ?= b); reflexivity.
Qed.

Lemma max_repr (a b : Z) :
  Z.abs a < 2 ^ 53 → Z.abs b < 2 ^ 53 → max (repr a) (repr b) = repr (Z.max a b).
Proof.
  intros Ha Hb. unfold max. rewrite compare_repr by assumption.
  destruct (Z.compare_spec a b) as [->|H|H].
  - rewrite Z.max_id. destruct b; reflexivity.
  - now rewrite Z.max_r by lia.
  - now rewrite Z.max_l by lia.
Qed.

Lemma min_repr (a b : Z) :
  Z.abs a < 2 ^ 53 → Z.abs b < 2 ^ 53 → min (repr a) (repr b) = repr (Z.min a b).
Proof.
  intros Ha Hb. unfold min. rewrite compare_repr by assumption.
  destruct (Z.compare_spec a b) as [->|H|H].
  - rewrite Z.min_id. destruct b; reflexivity.
  - now rewrite Z.min_l by lia.
  - now rewrite Z.min_r by lia.
Qed.

Lemma div_repr_same (n : Z) : n ≠ 0 → div (repr n) (repr n) = repr 1.
Proof. intros H. destruct n; [congruence|apply div_same..]. Qed.

End Binary64Props.

(** * Properties of the device protocol controller *)

Module HapticProps.

Import Haptic.
Local Open Scope Z_scope.

(** *** Arithmetic of the setters *)

Lemma trunc_num (z : Z) : trunc (num z) = z.
Proof. unfold trunc, num. simpl. apply Z.quot_1_r. Qed.

Lemma ToUint8_num (z : Z) : ToUint8 (num z) = z mod 256.
Proof. unfold ToUint8. now rewrite trunc_num. Qed.

Lemma fold_left_add (data : list Z) (acc : Z) :
  fold_left Z.add data acc = acc + byte_sum data.
Proof.
  revert acc. induction data as [|b data IH]; intros acc; simpl.
  - lia.
  - rewrite IH. lia.
Qed.

Lemma calculateChecksum_mod (data : list Z) :
  calculateChecksum data = byte_sum data mod 256.
Proof.
  unfold calculateChecksum. rewrite fold_left_add, Z.add_0_l.
  change 0xFF with (Z.ones 8). now rewrite Z.land_ones by lia.
Qed.

Lemma checksum_byte (data : list Z) :
  ToUint8 (num (calculateChecksum data)) = byte_sum data mod 256.
Proof. rewrite ToUint8_num, calculateChecksum_mod. apply Z.mod_mod. lia. Qed.

Local Arguments ToUint8 : simpl never.
Local Arguments ToUint16 : simpl never.
Local Arguments ToInt8 : simpl never.
Local Arguments Binary64.floor : simpl never.
Local Arguments Binary64.mul : simpl never.
Local Arguments Binary64.of_Z : simpl never.
Local Arguments member_number : simpl never.
Local Arguments num : simpl never.
Local Arguments getPatternCode : simpl never.
Local Arguments calculateChecksum : simpl never.
Local Arguments byte_sum : simpl never.
Local Arguments Z.modulo : simpl never.
Local Arguments Z.div : simpl never.
Local Arguments Qmult : simpl never.

(** The byte the intensity is written as, and the byte of a pattern. *)
Lemma pattern_code_byte (p : Pattern) :
  ToUint8 (member_number (getPatternCode (pattern_string p)))
  = match p with sharp => 1 | soft => 2 | medium => 3 | pulse => 4 end.
Proof. destruct p; reflexivity. Qed.

(** The bytes of the three frames, field by field. *)
Lemma vibrationCommand_bytes (config : VibrationConfig) :
  vibrationCommand config =
  Normal
    [ 1;
      ToUint8 (num (Binary64.floor (Binary64.mul (v_intensity config) (Binary64.of_Z 255))));
      ToUint16 (frequency config) mod 256; ToUint16 (frequency config) / 256;
      ToUint16 (v_duration config) mod 256; ToUint16 (v_duration config) / 256;
      ToUint8 (member_number (getPatternCode (pattern_string (pattern config))));
      byte_sum
        [ 1;
          ToUint8 (num (Binary64.floor
                          (Binary64.mul (v_intensity config) (Binary64.of_Z 255))));
          ToUint16 (frequency config) mod 256; ToUint16 (frequency config) / 256;
          ToUint16 (v_duration config) mod 256; ToUint16 (v_duration config) / 256;
          ToUint8 (member_number (getPatternCode (pattern_string (pattern config)))) ]
        mod 256 ].
Proof.
  unfold vibrationCommand, setUint8, setUint16, cbind, new_ArrayBuffer, Uint8Array.
  simpl. rewrite checksum_byte. reflexivity.
Qed.

Lemma temperatureCommand_bytes (config : TemperatureConfig) :
  temperatureCommand config =
  Normal
    [ 2;
      ToInt8 (target config) mod 256;
      ToUint16 (rampTime config) mod 256; ToUint16 (rampTime config) / 256;
      ToUint16 (holdTime config) mod 256; ToUint16 (holdTime config) / 256;
      0;
      byte_sum
        [ 2;
          ToInt8 (target config) mod 256;
          ToUint16 (rampTime config) mod 256; ToUint16 (rampTime config) / 256;
          ToUint16 (holdTime config) mod 256; ToUint16 (holdTime config) / 256;
          0 ] mod 256 ].
Proof.
  unfold temperatureCommand, setUint8, setInt8, setUint16, cbind, new_ArrayBuffer, Uint8Array.
  simpl. rewrite checksum_byte. reflexivity.
Qed.

Lemma stopAllCommand_bytes : stopAllCommand = Normal [3; 3].
Proof. reflexivity. Qed.

Lemma checksum_framed_snoc (body : list Z) :
  checksum_framed (body ++ [byte_sum body mod 256]).
Proof. now exists body, (byte_sum body mod 256). Qed.

(** C1. Every command frame the controller builds -- vibration (8 bytes),
    temperature (8 bytes), stop-all (2 bytes) -- ends in the sum of the
    bytes before it modulo 256; for intensity 1.0, frequency 200, duration
    100 and pattern sharp, byte 7 is the 8-bit sum of bytes 0 to 6. *)
Theorem command_frames_end_in_checksum :
  (∀ config, ∃ frame,
      vibrationCommand config = Normal frame ∧ length frame = 8%nat ∧
      checksum_framed frame) ∧
  (∀ config, ∃ frame,
      temperatureCommand config = Normal frame ∧ length frame = 8%nat ∧
      checksum_framed frame) ∧
  (∃ frame,
      stopAllCommand = Normal frame ∧ length frame = 2%nat ∧
      checksum_framed frame) ∧
  (∃ frame,
      vibrationCommand example_vibration = Normal frame ∧
      frame !! 7%nat = Some (byte_sum (take 7 frame) mod 256)).
Proof.
  repeat split.
  - intros config. eexists. split; [apply vibrationCommand_bytes|].
    split; [reflexivity|].
    apply (checksum_framed_snoc [_; _; _; _; _; _; _]).
  - intros config. eexists. split; [apply temperatureCommand_bytes|].
    split; [reflexivity|].
    apply (checksum_framed_snoc [_; _; _; _; _; _; _]).
  - eexists. split; [apply stopAllCommand_bytes|].
    split; [reflexivity|].
    exists [3], 3. split; reflexivity.
  - eexists. split; [apply vibrationCommand_bytes|]. reflexivity.
Qed.

Lemma ToInt8_byte (x : Q) : ToInt8 x mod 256 = trunc x mod 256.
Proof.
  unfold ToInt8. change (2 ^ 8) with 256. change (2 ^ 7) with 128.
  destruct (128 <=? trunc x mod 256).
  - rewrite <- (Z.mod_mod (trunc x) 256) at 2 by lia.
    rewrite <- (Z.mod_add (trunc x mod 256 - 256) 1 256) by lia.
    f_equal. lia.
  - apply Z.mod_mod. lia.
Qed.

Lemma u16_little_endian (x : Q) :
  ToUint16 x mod 256 + 256 * (ToUint16 x / 256) = trunc x mod 65536.
Proof.
  unfold ToUint16. change (2 ^ 16) with 65536.
  pose proof (Z.div_mod (trunc x mod 65536) 256). lia.
Qed.

(** [sendVibration] on a ready controller: the frame goes to the transport
    whatever the field values are, and the result is that of the write. *)
Lemma sendVibration_ready bt config this ch :
  vibration_ready this ch →
  ∃ frame this',
    vibrationCommand config = Normal frame ∧
    sendVibration bt config this =
      (Normal (bool_decide (writeValue bt (written this) ch frame = None)), this') ∧
    written this' = written this ++ [ {| w_uuid := uuid ch; w_data := frame |} ].
Proof.
  intros (Hc & Hv & Hch).
  eexists. unfold sendVibration, bind, get, try_catch, await, write, ret, throw, emit, update.
  rewrite Hc, Hv. cbn [negb orb]. cbv beta iota. rewrite Hch. cbv beta iota.
  rewrite vibrationCommand_bytes. cbv beta iota.
  match goal with |- context [writeValue bt ?w ?c ?f] => destruct (writeValue bt w c f) eqn:Hw end.
  - eexists. split; [reflexivity|].
    rewrite bool_decide_eq_false_2 by (rewrite Hw; discriminate).
    split; reflexivity.
  - eexists. split; [reflexivity|].
    rewrite bool_decide_eq_true_2 by exact Hw.
    split; reflexivity.
Qed.

Lemma sendTemperature_ready bt config this ch :
  temperature_ready this ch →
  ∃ frame this',
    temperatureCommand config = Normal frame ∧
    sendTemperature bt config this =
      (Normal (bool_decide (writeValue bt (written this) ch frame = None)), this') ∧
    written this' = written this ++ [ {| w_uuid := uuid ch; w_data := frame |} ].
Proof.
  intros (Hc & Hv & Hch).
  eexists. unfold sendTemperature, bind, get, try_catch, await, write, ret, throw, emit, update.
  rewrite Hc, Hv. cbn [negb orb]. cbv beta iota. rewrite Hch. cbv beta iota.
  rewrite temperatureCommand_bytes. cbv beta iota.
  match goal with |- context [writeValue bt ?w ?c ?f] => destruct (writeValue bt w c f) eqn:Hw end.
  - eexists. split; [reflexivity|].
    rewrite bool_decide_eq_false_2 by (rewrite Hw; discriminate).
    split; reflexivity.
  - eexists. split; [reflexivity|].
    rewrite bool_decide_eq_true_2 by exact Hw.
    split; reflexivity.
Qed.

(** C2, as the code has it. No range check precedes the write: for every
    vibration or temperature config, in range or not, the encode succeeds and
    the 8-byte frame is handed to the transport; the [DataView] setters
    reduce frequency, duration, rampTime and holdTime (truncated to an
    integer) modulo 65536, stored low byte first, and the target
    temperature modulo 256. *)
Theorem out_of_range_values_wrap :
  (∀ bt config this ch,
      vibration_ready this ch →
      ∃ b1 lo_f hi_f lo_d hi_d code sum this',
        lo_f + 256 * hi_f = trunc (frequency config) mod 65536 ∧
        lo_d + 256 * hi_d = trunc (v_duration config) mod 65536 ∧
        vibrationCommand config = Normal [1; b1; lo_f; hi_f; lo_d; hi_d; code; sum] ∧
        sendVibration bt config this =
          (Normal (bool_decide
                     (writeValue bt (written this) ch
                        [1; b1; lo_f; hi_f; lo_d; hi_d; code; sum] = None)), this') ∧
        written this' =
          written this ++
            [ {| w_uuid := uuid ch; w_data := [1; b1; lo_f; hi_f; lo_d; hi_d; code; sum] |} ]) ∧
  (∀ bt config this ch,
      temperature_ready this ch →
      ∃ b1 lo_r hi_r lo_h hi_h sum this',
        b1 = trunc (target config) mod 256 ∧
        lo_r + 256 * hi_r = trunc (rampTime config) mod 65536 ∧
        lo_h + 256 * hi_h = trunc (holdTime config) mod 65536 ∧
        temperatureCommand config = Normal [2; b1; lo_r; hi_r; lo_h; hi_h; 0; sum] ∧
        sendTemperature bt config this =
          (Normal (bool_decide
                     (writeValue bt (written this) ch
                        [2; b1; lo_r; hi_r; lo_h; hi_h; 0; sum] = None)), this') ∧
        written this' =
          written this ++
            [ {| w_uuid := uuid ch; w_data := [2; b1; lo_r; hi_r; lo_h; hi_h; 0; sum] |} ]).
Proof.
  split; intros bt config this ch Hready.
  - destruct (sendVibration_ready bt config this ch Hready) as (frame & this' & Hf & Hs & Hw).
    rewrite vibrationCommand_bytes in Hf. injection Hf as <-.
    do 7 eexists. exists this'.
    split; [apply u16_little_endian|]. split; [apply u16_little_endian|].
    split; [apply vibrationCommand_bytes|]. split; assumption.
  - destruct (sendTemperature_ready bt config this ch Hready) as (frame & this' & Hf & Hs & Hw).
    rewrite temperatureCommand_bytes in Hf. injection Hf as <-.
    do 6 eexists. exists this'.
    split; [apply ToInt8_byte|].
    split; [apply u16_little_endian|]. split; [apply u16_little_endian|].
    split; [apply temperatureCommand_bytes|]. split; assumption.
Qed.

(** A frequency of 70000 Hz and a target of 200 degrees are out of range,
    yet both frames are built and written: 70000 goes out as 4464
    (bytes 112, 17) and 200 as the byte of -56. *)
Lemma out_of_range_frames_are_sent :
  let v := {| v_intensity := Binary64.of_Z 1; frequency := 70000; pattern := sharp;
       v_duration := 100 |} in
  let t := {| target := 200; rampTime := 200; holdTime := 300 |} in
  ¬ vibration_in_range v ∧ ¬ temperature_in_range t ∧
  vibrationCommand v = Normal [1; 255; 112; 17; 100; 0; 1; 230] ∧
  temperatureCommand t = Normal [2; 200; 200; 0; 44; 1; 0; 191] ∧
  fst (sendVibration no_status_stack v connected_controller) = Normal true ∧
  written (snd (sendVibration no_status_stack v connected_controller)) =
    [ {| w_uuid := VIBRATION_CHARACTERISTIC_UUID;
         w_data := [1; 255; 112; 17; 100; 0; 1; 230] |} ] ∧
  fst (sendTemperature no_status_stack t connected_controller) = Normal true ∧
  written (snd (sendTemperature no_status_stack t connected_controller)) =
    [ {| w_uuid := TEMPERATURE_CHARACTERISTIC_UUID;
         w_data := [2; 200; 200; 0; 44; 1; 0; 191] |} ].
Proof.
  cbv zeta. split; [|split].
  - unfold vibration_in_range. cbn [frequency v_duration]. lra.
  - unfold temperature_in_range. cbn [target rampTime holdTime]. lra.
  - repeat split; vm_compute; reflexivity.
Qed.

Lemma out_of_range_values_wrap_witness :
  vibration_ready connected_controller {| uuid := VIBRATION_CHARACTERISTIC_UUID |} ∧
  temperature_ready connected_controller {| uuid := TEMPERATURE_CHARACTERISTIC_UUID |} ∧
  (∃ frame,
      vibrationCommand
        {| v_intensity := Binary64.of_Z 1; frequency := 70000; pattern := sharp;
       v_duration := 100 |}
      = Normal frame) ∧
  (∃ frame,
      temperatureCommand {| target := 200; rampTime := 200; holdTime := 300 |}
      = Normal frame).
Proof.
  assert (Hv : vibration_ready connected_controller
                 {| uuid := VIBRATION_CHARACTERISTIC_UUID |})
    by (repeat split; vm_compute; reflexivity).
  assert (Ht : temperature_ready connected_controller
                 {| uuid := TEMPERATURE_CHARACTERISTIC_UUID |})
    by (repeat split; vm_compute; reflexivity).
  split; [exact Hv|]. split; [exact Ht|]. split.
  - destruct (proj1 out_of_range_values_wrap no_status_stack
                {| v_intensity := Binary64.of_Z 1; frequency := 70000; pattern := sharp;
       v_duration := 100 |}
                connected_controller _ Hv)
      as (b1 & lo_f & hi_f & lo_d & hi_d & code & sum & this' & _ & _ & Hf & _).
    eexists. exact Hf.
  - destruct (proj2 out_of_range_values_wrap no_status_stack
                {| target := 200; rampTime := 200; holdTime := 300 |}
                connected_controller _ Ht)
      as (b1 & lo_r & hi_r & lo_h & hi_h & sum & this' & _ & _ & _ & Hf & _).
    eexists. exact Hf.
Defined.

(** C7. While the device's vibration capability is false [sendVibration]
    returns false and writes nothing; a controller that is not connected
    returns false from [sendVibration] and [sendTemperature] without a
    write.  The controller is left as it was. *)
Theorem sends_are_gated :
  (∀ bt config this info,
      deviceInfo this = Some info → vibration (capabilities info) = false →
      sendVibration bt config this = (Normal false, this)) ∧
  (∀ bt config this,
      isConnected this = false →
      sendVibration bt config this = (Normal false, this)) ∧
  (∀ bt config this,
      isConnected this = false →
      sendTemperature bt config this = (Normal false, this)).
Proof.
  repeat split.
  - intros bt config this info Hinfo Hcap.
    unfold sendVibration, bind, get, capability. rewrite Hinfo, Hcap.
    now rewrite orb_true_r.
  - intros bt config this Hc. unfold sendVibration, bind, get. now rewrite Hc.
  - intros bt config this Hc. unfold sendTemperature, bind, get. now rewrite Hc.
Qed.

Lemma sends_are_gated_witness :
  sendVibration no_status_stack example_vibration no_vibration_controller
    = (Normal false, no_vibration_controller) ∧
  sendVibration no_status_stack example_vibration new_HapticController
    = (Normal false, new_HapticController) ∧
  sendTemperature no_status_stack {| target := 18; rampTime := 200; holdTime := 300 |}
    new_HapticController
    = (Normal false, new_HapticController).
Proof.
  destruct sends_are_gated as (Hcap & Hv & Ht).
  split; [|split].
  - eapply Hcap; reflexivity.
  - apply Hv. reflexivity.
  - apply Ht. reflexivity.
Defined.

(** C10. A profile with neither a vibration nor a temperature part makes
    [sendHapticFeedback] return true without a write, whatever the
    connection state and the capabilities are. *)
Theorem empty_profile_succeeds bt profile this :
  p_vibration profile = None → p_temperature profile = None →
  sendHapticFeedback bt profile this = (Normal true, this).
Proof.
  intros Hv Ht. unfold sendHapticFeedback, bind, ret. now rewrite Hv, Ht.
Qed.

Lemma empty_profile_succeeds_witness :
  sendHapticFeedback no_status_stack
    {| p_vibration := None; p_temperature := None; duration := 400; intensity := 1 |}
    new_HapticController
  = (Normal true, new_HapticController).
Proof. apply empty_profile_succeeds; reflexivity. Defined.

(** *** Connecting to a device without the status characteristic *)

Lemma status_uuid_distinct :
  VIBRATION_CHARACTERISTIC_UUID ≠ STATUS_CHARACTERISTIC_UUID ∧
  TEMPERATURE_CHARACTERISTIC_UUID ≠ STATUS_CHARACTERISTIC_UUID ∧
  BATTERY_CHARACTERISTIC_UUID ≠ STATUS_CHARACTERISTIC_UUID.
Proof. repeat split; discriminate. Qed.

(** [initializeCharacteristic] for another uuid leaves the status entry of
    the map, the device record and the event trace alone. *)
Lemma initializeCharacteristic_other bt u this :
  u ≠ STATUS_CHARACTERISTIC_UUID →
  ∃ this',
    initializeCharacteristic bt u this = (Normal tt, this') ∧
    characteristics this' !! STATUS_CHARACTERISTIC_UUID
      = characteristics this !! STATUS_CHARACTERISTIC_UUID ∧
    deviceInfo this' = deviceInfo this ∧ emitted this' = emitted this.
Proof.
  intros Hne. unfold initializeCharacteristic, try_catch, bind, await, get,
    set_characteristics, update, ret.
  destruct (getCharacteristic bt u) as [c|m]; eexists; (split; [reflexivity|]); cbn.
  - rewrite lookup_insert_ne by exact Hne. auto.
  - auto.
Qed.

Lemma initializeCharacteristic_status bt this m :
  getCharacteristic bt STATUS_CHARACTERISTIC_UUID = Throw m →
  initializeCharacteristic bt STATUS_CHARACTERISTIC_UUID this = (Normal tt, this).
Proof.
  intros H. unfold initializeCharacteristic, try_catch, bind, await, ret.
  now rewrite H.
Qed.

Lemma initializeCharacteristics_no_status bt this m :
  getCharacteristic bt STATUS_CHARACTERISTIC_UUID = Throw m →
  ∃ this',
    initializeCharacteristics bt this = (Normal tt, this') ∧
    characteristics this' !! STATUS_CHARACTERISTIC_UUID
      = characteristics this !! STATUS_CHARACTERISTIC_UUID ∧
    deviceInfo this' = deviceInfo this ∧ emitted this' = emitted this.
Proof.
  intros Hs. destruct status_uuid_distinct as (Hv & Ht & Hb).
  destruct (initializeCharacteristic_other bt _ this Hv) as (c1 & E1 & L1 & D1 & M1).
  destruct (initializeCharacteristic_other bt _ c1 Ht) as (c2 & E2 & L2 & D2 & M2).
  destruct (initializeCharacteristic_other bt _ c2 Hb) as (c3 & E3 & L3 & D3 & M3).
  exists c3. split.
  - unfold initializeCharacteristics, characteristicUUIDs. cbn [foldr]. unfold bind at 1.
    rewrite E1. unfold bind at 1. rewrite E2. unfold bind at 1. rewrite E3.
    unfold bind. rewrite (initializeCharacteristic_status bt c3 m Hs). reflexivity.
  - repeat split; congruence.
Qed.

(** [fetchDeviceInfo] with no status characteristic in the map: the [if] is
    skipped, nothing is thrown, the [catch] with the default record is not
    entered, and [deviceInfo] keeps its value. *)
Lemma fetchDeviceInfo_no_status bt this :
  characteristics this !! STATUS_CHARACTERISTIC_UUID = None →
  fetchDeviceInfo bt this = (Normal tt, this).
Proof.
  intros H. unfold fetchDeviceInfo, try_catch, bind, get. cbv beta iota.
  now rewrite H.
Qed.

(** Every successful [connect] that finds no status characteristic leaves
    [deviceInfo] as it was and emits [connected] with that value. *)
Lemma connect_no_status_keeps_deviceInfo bt deviceName this this' m :
  characteristics this !! STATUS_CHARACTERISTIC_UUID = None →
  getCharacteristic bt STATUS_CHARACTERISTIC_UUID = Throw m →
  connect bt deviceName this = (Normal true, this') →
  deviceInfo this' = deviceInfo this ∧
  emitted this' = emitted this ++ [connected_event (deviceInfo this)].
Proof.
  intros Hmap Hs. unfold connect, try_catch.
  destruct (available bt); cbn [negb];
    [|unfold throw, bind, emit, update, ret; intros [=]].
  unfold bind at 1, await at 1.
  destruct (requestDevice bt deviceName) as [d|e];
    [|unfold bind, emit, update, ret; intros [=]].
  unfold bind at 1, set_device at 1, update at 1.
  unfold bind at 1, await at 1.
  destruct (gatt_connect bt d) as [[]|e];
    [|unfold bind, emit, update, ret; intros [=]].
  unfold bind at 1, set_server at 1, update at 1.
  unfold bind at 1, await at 1.
  destruct (getPrimaryService bt HAPTIC_SERVICE_UUID) as [[]|e];
    [|unfold bind, emit, update, ret; intros [=]].
  unfold bind at 1, set_service at 1, update at 1.
  unfold bind at 1.
  match goal with |- context [initializeCharacteristics bt ?c] =>
    destruct (initializeCharacteristics_no_status bt c m Hs) as (c1 & E & L & D & M);
    rewrite E
  end.
  cbn in L, D, M. rewrite Hmap in L.
  unfold bind at 1. rewrite (fetchDeviceInfo_no_status bt c1 L).
  clear E.
  unfold startBatteryMonitoring, set_batteryMonitoring, set_isConnected, emit, get,
    ret, update, bind.
  destruct (characteristics c1 !! BATTERY_CHARACTERISTIC_UUID);
    intros [= E']; subst this'; cbn; rewrite D, M; auto.
Qed.

(** C8 on the code. A device that exposes the vibration, temperature and
    battery characteristics but no status characteristic: [connect]
    succeeds, [deviceInfo] is still [null], the [connected] event carries
    [null], and the vibration that follows is refused. *)
Theorem connect_without_status_characteristic :
  let '(result, this) := connect no_status_stack "FingerSuit" new_HapticController in
  result = Normal true ∧ isConnected this = true ∧
  is_Some (characteristics this !! VIBRATION_CHARACTERISTIC_UUID) ∧
  characteristics this !! STATUS_CHARACTERISTIC_UUID = None ∧
  deviceInfo this = None ∧
  emitted this = [connected_event None] ∧
  sendVibration no_status_stack example_vibration this = (Normal false, this).
Proof. vm_compute. repeat split; eauto. Qed.

End HapticProps.

(** * Properties of the detector *)

Module YoloProps.

Import Yolo.
Local Open Scope Q_scope.

(** *** [calculateIoU] *)

Lemma lt_spec (a b : Q) : lt a b = true ↔ a < b.
Proof.
  unfold lt. rewrite negb_true_iff. split.
  - intros H. apply Qnot_le_lt. intros Hle. apply Qle_bool_iff in Hle. congruence.
  - intros H. destruct (Qle_bool b a) eqn:E; [|reflexivity].
    apply Qle_bool_iff in E. lra.
Qed.

Lemma lt_false (a b : Q) : lt a b = false ↔ b <= a.
Proof.
  unfold lt. rewrite negb_false_iff. apply Qle_bool_iff.
Qed.

Lemma le_spec (a b : Q) : le a b = true ↔ a <= b.
Proof. apply Qle_bool_iff. Qed.

Lemma le_false (a b : Q) : le a b = false ↔ b < a.
Proof.
  unfold le. split.
  - intros H. apply Qnot_le_lt. intros Hle. apply Qle_bool_iff in Hle. congruence.
  - intros H. destruct (Qle_bool a b) eqn:E; [|reflexivity].
    apply Qle_bool_iff in E. lra.
Qed.

(** The two exits of [calculateIoU]. *)
Lemma calculateIoU_apart (box1 box2 : BoundingBox) :
  Qmin (x box1 + width box1) (x box2 + width box2) <= Qmax (x box1) (x box2) ∨
  Qmin (y box1 + height box1) (y box2 + height box2) <= Qmax (y box1) (y box2) →
  calculateIoU box1 box2 = 0.
Proof.
  intros H. unfold calculateIoU.
  destruct H as [H|H]; apply le_spec in H; rewrite H; [reflexivity|].
  now rewrite orb_true_r.
Qed.

Lemma calculateIoU_meet (box1 box2 : BoundingBox) :
  let x1 := Qmax (x box1) (x box2) in
  let y1 := Qmax (y box1) (y box2) in
  let x2 := Qmin (x box1 + width box1) (x box2 + width box2) in
  let y2 := Qmin (y box1 + height box1) (y box2 + height box2) in
  x1 < x2 → y1 < y2 →
  calculateIoU box1 box2 =
    (x2 - x1) * (y2 - y1) / (area box1 + area box2 - (x2 - x1) * (y2 - y1)).
Proof.
  intros x1 y1 x2 y2 Hx Hy. unfold calculateIoU.
  apply le_false in Hx, Hy. fold x1 y1 x2 y2. now rewrite Hx, Hy.
Qed.



(** *** Non-maximum suppression as a selection *)

Section Suppression.

Variable config : YOLOConfig.

Lemma suppress_loop_below box_i (rest : list DetectionResult) :
  ∀ j suppressed k,
    (k < j)%nat →
    k ∈ suppress_loop config box_i j rest suppressed ↔ k ∈ suppressed.
Proof.
  induction rest as [|e rest IH]; intros j suppressed k Hk; cbn [suppress_loop].
  - reflexivity.
  - rewrite IH by lia.
    destruct (decide (j ∈ suppressed)); [reflexivity|].
    destruct (gt _ _); [|reflexivity].
    rewrite elem_of_union, elem_of_singleton. split; [|auto].
    intros [->|H]; [lia|exact H].
Qed.

(** After the inner loop index [j + k] is suppressed exactly when it was
    before or the box at [i] overlaps it beyond the threshold. *)
Lemma suppress_loop_spec box_i (rest : list DetectionResult) :
  ∀ j suppressed k e,
    rest !! k = Some e →
    (j + k)%nat ∈ suppress_loop config box_i j rest suppressed ↔
    (j + k)%nat ∈ suppressed ∨
    gt (calculateIoU box_i (bbox e)) (nmsThreshold config) = true.
Proof.
  induction rest as [|e0 rest IH]; intros j suppressed k e Hk; [discriminate|].
  cbn [suppress_loop]. destruct k as [|k]; cbn in Hk.
  - injection Hk as ->. rewrite Nat.add_0_r.
    rewrite suppress_loop_below by lia.
    destruct (decide (j ∈ suppressed)) as [Hin|Hin]; [tauto|].
    destruct (gt _ _) eqn:E.
    + rewrite elem_of_union, elem_of_singleton. tauto.
    + split; [tauto|]. intros [H|H]; [exact H|discriminate].
  - replace (j + S k)%nat with (S j + k)%nat by lia.
    rewrite (IH (S j) _ k e Hk).
    destruct (decide (j ∈ suppressed)) as [Hin|Hin]; [reflexivity|].
    destruct (gt (calculateIoU box_i (bbox e0)) _); [|reflexivity].
    rewrite elem_of_union, elem_of_singleton.
    split; intros [H|H]; auto.
    destruct H as [H|H]; [lia|auto].
Qed.

Lemma existsb_snoc {A} (f : A → bool) (l : list A) (a : A) :
  existsb f (l ++ [a]) = existsb f l || f a.
Proof. rewrite existsb_app. cbn. now rewrite orb_false_r. Qed.

(** The outer loop computes the selection, as long as the suppressed
    indices at and after [i] are those overlapped by a kept detection. *)
Lemma keep_loop_select (rest : list DetectionResult) :
  ∀ i suppressed keep,
    (∀ k e, rest !! k = Some e →
            (i + k)%nat ∈ suppressed ↔ existsb (λ d, suppresses config d e) keep = true) →
    keep_loop config i rest suppressed keep = keep ++ select config keep rest.
Proof.
  induction rest as [|d rest IH]; intros i suppressed keep Inv; cbn [keep_loop select].
  - now rewrite app_nil_r.
  - pose proof (Inv 0%nat d eq_refl) as H0. rewrite Nat.add_0_r in H0.
    destruct (decide (i ∈ suppressed)) as [Hin|Hin].
    + rewrite (proj1 H0 Hin). apply IH. intros k e Hk.
      specialize (Inv (S k) e Hk). now replace (S i + k)%nat with (i + S k)%nat by lia.
    + destruct (existsb _ keep) eqn:E; [tauto|].
      rewrite IH; [now rewrite <- app_assoc|].
      intros k e Hk. rewrite (suppress_loop_spec _ _ _ _ k e Hk).
      replace (S i + k)%nat with (i + S k)%nat by lia.
      rewrite (Inv (S k) e Hk), existsb_snoc, orb_true_iff. reflexivity.
Qed.

Lemma select_sublist (l : list DetectionResult) :
  ∀ kept, select config kept l `sublist_of` l.
Proof.
  induction l as [|d l IH]; intros kept; cbn [select]; [constructor|].
  destruct (existsb _ kept).
  - apply sublist_cons, IH.
  - apply sublist_skip, IH.
Qed.

(** Selecting from a selection changes nothing. *)
Lemma select_idempotent (l : list DetectionResult) :
  ∀ kept, select config kept (select config kept l) = select config kept l.
Proof.
  induction l as [|d l IH]; intros kept; cbn [select]; [reflexivity|].
  destruct (existsb _ kept) eqn:E.
  - apply IH.
  - cbn [select]. rewrite E. f_equal. apply IH.
Qed.

End Suppression.

(** *** The stable sort *)

Lemma sort_insert_elem (a : DetectionResult) (sorted : list DetectionResult) d :
  d ∈ sort_insert by_confidence a sorted ↔ d = a ∨ d ∈ sorted.
Proof.
  induction sorted as [|b rest IH]; cbn [sort_insert].
  - rewrite list_elem_of_singleton, elem_of_nil. tauto.
  - destruct (gt _ _).
    + rewrite !elem_of_cons, IH. tauto.
    + rewrite !elem_of_cons. tauto.
Qed.

Lemma gt_by_confidence (a b : DetectionResult) :
  gt (by_confidence a b) 0 = true ↔ confidence a < confidence b.
Proof. unfold gt, by_confidence. rewrite lt_spec. split; intros; lra. Qed.

Lemma gt_by_confidence_false (a b : DetectionResult) :
  gt (by_confidence a b) 0 = false ↔ confidence b <= confidence a.
Proof. unfold gt, by_confidence. rewrite lt_false. split; intros; lra. Qed.

Lemma sort_insert_descending (a : DetectionResult) (sorted : list DetectionResult) :
  descending sorted → descending (sort_insert by_confidence a sorted).
Proof.
  unfold descending. induction sorted as [|b rest IH]; intros Hs; cbn [sort_insert].
  - repeat constructor.
  - inversion Hs as [|? ? Hrest Hall]; subst.
    destruct (gt _ _) eqn:E.
    + apply gt_by_confidence in E. constructor; [auto|].
      apply Forall_forall. intros d Hd. apply sort_insert_elem in Hd as [->|Hd].
      * lra.
      * rewrite Forall_forall in Hall. auto.
    + apply gt_by_confidence_false in E. constructor; [exact Hs|].
      constructor; [exact E|].
      eapply Forall_impl; [exact Hall|]. cbn. intros d Hd. lra.
Qed.

Lemma sort_descending (l : list DetectionResult) : descending (sort by_confidence l).
Proof.
  induction l as [|a l IH]; cbn.
  - constructor.
  - apply sort_insert_descending, IH.
Qed.

(** A list already in order is left as it is: equal confidences included. *)
Lemma sort_descending_id (l : list DetectionResult) :
  descending l → sort by_confidence l = l.
Proof.
  unfold descending. induction l as [|a l IH]; intros Hs; [reflexivity|].
  inversion Hs as [|? ? Hrest Hall]; subst.
  cbn [sort foldr]. fold (sort by_confidence l). rewrite IH by exact Hrest.
  destruct l as [|b l]; [reflexivity|]. cbn [sort_insert].
  inversion Hall; subst.
  now rewrite (proj2 (gt_by_confidence_false a b)).
Qed.

Lemma descending_sublist (l1 l2 : list DetectionResult) :
  l1 `sublist_of` l2 → descending l2 → descending l1.
Proof.
  unfold descending. intros Hsub. induction Hsub as [|d l1 l2 Hsub IH|d l1 l2 Hsub IH];
    intros Hs.
  - constructor.
  - inversion Hs as [|? ? Hrest Hall]; subst. constructor; [auto|].
    apply Forall_forall. intros e He. rewrite Forall_forall in Hall.
    apply Hall. eapply elem_of_sublist; eauto.
  - inversion Hs; subst. auto.
Qed.

(** [applyNMS] sorts, then selects. *)
Lemma applyNMS_select (config : YOLOConfig) (detections : list DetectionResult) :
  applyNMS config detections = select config [] (sort by_confidence detections).
Proof.
  unfold applyNMS. destruct (decide (length detections = 0%nat)) as [E|E].
  - destruct detections; [reflexivity|discriminate].
  - rewrite keep_loop_select; [reflexivity|].
    intros k e _. cbn. rewrite elem_of_empty. split; [tauto|discriminate].
Qed.

(** C5. Applying [applyNMS] to its own output returns that output: no kept
    detection is suppressed in a second pass and the order is unchanged. *)
Theorem applyNMS_idempotent (config : YOLOConfig) (detections : list DetectionResult) :
  applyNMS config (applyNMS config detections) = applyNMS config detections.
Proof.
  rewrite !applyNMS_select.
  rewrite (sort_descending_id (select config [] (sort by_confidence detections))).
  - apply select_idempotent.
  - eapply descending_sublist; [apply select_sublist|apply sort_descending].
Qed.

(** *** The session manager *)

(** C3. [detect] rejects exactly when the detector is not [Ready]; when it
    is [Ready] and preprocessing, inference or the hand-over to
    postprocessing throws, the error is caught and [detect] resolves with
    the empty list. *)
Theorem detect_rejects_iff_not_ready (env : Browser) (this : YOLO11Detector)
    (imageData : ImageData.t) (ticks : nat) :
  ((∃ m, detect env this imageData ticks = Throw m) ↔ ¬ Ready this) ∧
  (Ready this → pipeline_fails env this imageData →
   detect env this imageData ticks = Normal (Some [])).
Proof.
  unfold Ready, detect. split.
  - destruct (isInitialized this), (session this) as [s|].
    + split.
      * intros [m H]. exfalso. revert H. unfold ctry, cbind.
        destruct (preprocessImage _ _ _) as [[[tensor scaleX] scaleY]|]; [|discriminate].
        destruct (session_run _ _ _) as [results|]; [|discriminate].
        destruct (results !! "output0"); discriminate.
      * intros H. exfalso. apply H. split; [reflexivity|]. eauto.
    + split; [|eauto]. intros _ [_ [x Hx]]. discriminate.
    + split; [|eauto]. intros _ [H _]. discriminate.
    + split; [|eauto]. intros _ [H _]. discriminate.
  - intros [Hi [s Hs]] Hfail. rewrite Hi, Hs. unfold ctry, cbind.
    destruct Hfail as [[m Hp]|(s' & tensor & scaleX & scaleY & Hs' & Hp & Hrun)].
    + now rewrite Hp.
    + rewrite Hp. rewrite Hs in Hs'. injection Hs' as <-.
      destruct Hrun as [[m Hr]|(results & Hr & Ho)]; rewrite Hr; [reflexivity|].
      now rewrite Ho.
Qed.

Lemma detect_rejects_iff_not_ready_witness :
  let ready := {| session := Some 1%nat; config := example_config; isInitialized := true |} in
  Ready ready ∧ pipeline_fails failing_engine ready blank_frame ∧
  detect failing_engine ready blank_frame 0 = Normal (Some []) ∧
  ¬ Ready (new_YOLO11Detector example_config) ∧
  ∃ m, detect failing_engine (new_YOLO11Detector example_config) blank_frame 0 = Throw m.
Proof.
  cbv zeta.
  assert (Hr : Ready {| session := Some 1%nat; config := example_config;
                        isInitialized := true |})
    by (split; [reflexivity|eexists; reflexivity]).
  assert (Hf : pipeline_fails failing_engine
                 {| session := Some 1%nat; config := example_config; isInitialized := true |}
                 blank_frame).
  { right. do 4 eexists. split; [reflexivity|]. split; [reflexivity|].
    left. eexists. reflexivity. }
  assert (Hn : ¬ Ready (new_YOLO11Detector example_config))
    by (intros [H _]; discriminate H).
  split; [exact Hr|]. split; [exact Hf|]. split.
  - exact (proj2 (detect_rejects_iff_not_ready failing_engine _ blank_frame 0) Hr Hf).
  - split; [exact Hn|].
    exact (proj2 (proj1 (detect_rejects_iff_not_ready failing_engine _ blank_frame 0)) Hn).
Defined.

(** *** The threshold filter *)

Lemma maxClass_fold (output : list Q) (offset : nat) :
  maxClass output offset = foldl (class_step output offset) (Some (0, 0%nat)) (seq 0 80).
Proof. reflexivity. Qed.

Lemma class_fold_bounds (output : list Q) (offset : nat) (js : list nat) :
  ∀ m idx m' idx',
    foldl (class_step output offset) (Some (m, idx)) js = Some (m', idx') →
    (∀ j, j ∈ js → (j < 80)%nat) →
    m <= m' ∧
    ((idx < 80)%nat → (idx' < 80)%nat) ∧
    (m <= 1 →
     (∀ j v, (j < 80)%nat → output !! (offset + 5 + j)%nat = Some v → v <= 1) →
     m' <= 1).
Proof.
  induction js as [|j js IH]; intros m idx m' idx' Hfold Hjs.
  - injection Hfold as <- <-. repeat split; auto. lra.
  - assert (Hj : (j < 80)%nat) by (apply Hjs; left).
    assert (Hjs' : ∀ k, k ∈ js → (k < 80)%nat) by (intros k Hk; apply Hjs; now right).
    change (foldl (class_step output offset)
              (class_step output offset (Some (m, idx)) j) js = Some (m', idx')) in Hfold.
    unfold class_step at 2 in Hfold. cbn in Hfold.
    destruct (output !! (offset + 5 + j)%nat) as [v|] eqn:Ev; cbn in Hfold.
    + destruct (gt v m) eqn:Eg.
      * destruct (IH _ _ _ _ Hfold Hjs') as (Hle & Hidx & Hone).
        apply lt_spec in Eg. repeat split; [lra|auto|].
        intros _ Hall. apply Hone; [|exact Hall]. exact (Hall j v Hj Ev).
      * destruct (IH _ _ _ _ Hfold Hjs') as (Hle & Hidx & Hone).
        repeat split; auto.
    + exfalso. clear -Hfold. induction js as [|k js IH]; [discriminate|]. auto.
Qed.

Lemma maxClass_bounds (output : list Q) (offset : nat) m idx :
  maxClass output offset = Some (m, idx) →
  0 <= m ∧ (idx < 80)%nat ∧
  ((∀ j v, (j < 80)%nat → output !! (offset + 5 + j)%nat = Some v → v <= 1) → m <= 1).
Proof.
  rewrite maxClass_fold. intros H.
  destruct (class_fold_bounds output offset (seq 0 80) _ _ _ _ H) as (H0 & Hidx & Hone).
  - intros j Hj. apply elem_of_seq in Hj. lia.
  - repeat split; [exact H0|apply Hidx; lia|]. intros Hall. apply Hone; [lra|exact Hall].
Qed.

Lemma classNames_length : length classNames = 80%nat.
Proof. reflexivity. Qed.

Local Arguments maxClass : simpl never.
Local Arguments classNames : simpl never.

(** The verdict on a candidate whose scores were read: which of the two
    comparisons with the threshold, if any, dropped it. *)
Lemma filterCandidate_verdict (config : YOLOConfig) (output : list Q)
    (scaleX scaleY : Q) (i : nat) (objectness maxScore : Q) :
  candidate_scores output i = Some (objectness, maxScore) →
  ∃ f,
    filterCandidate config output scaleX scaleY i = Some f ∧
    ((objectness < confidenceThreshold config ∧ f = below_objectness) ∨
     (confidenceThreshold config <= objectness ∧
      objectness * maxScore < confidenceThreshold config ∧ f = below_confidence) ∨
     (confidenceThreshold config <= objectness ∧
      confidenceThreshold config <= objectness * maxScore ∧ passes_threshold f = true)).
Proof.
  unfold candidate_scores, mbind, option_bind. intros H.
  destruct (output !! (i * 85 + 4)%nat) as [o|] eqn:Eo; [|discriminate].
  destruct (maxClass output (i * 85)) as [[m idx]|] eqn:Em; [|discriminate].
  injection H as -> ->.
  destruct (maxClass_bounds _ _ _ _ Em) as (_ & Hidx & _).
  assert (Hlen : (i * 85 + 4 < length output)%nat)
    by (apply lookup_lt_is_Some; eauto).
  destruct (lookup_lt_is_Some_2 output (i * 85)%nat ltac:(lia)) as [v0 E0].
  destruct (lookup_lt_is_Some_2 output (i * 85 + 1)%nat ltac:(lia)) as [v1 E1].
  destruct (lookup_lt_is_Some_2 output (i * 85 + 2)%nat ltac:(lia)) as [v2 E2].
  destruct (lookup_lt_is_Some_2 output (i * 85 + 3)%nat ltac:(lia)) as [v3 E3].
  destruct (lookup_lt_is_Some_2 classNames idx ltac:(rewrite classNames_length; lia))
    as [className Ec].
  unfold filterCandidate. rewrite E0, E1, E2, E3, Eo. cbn.
  destruct (lt objectness (confidenceThreshold config)) eqn:L1.
  - apply lt_spec in L1. eexists. split; [reflexivity|]. left. auto.
  - apply lt_false in L1. rewrite Em. cbn.
    destruct (lt (objectness * maxScore) (confidenceThreshold config)) eqn:L2.
    + apply lt_spec in L2. eexists. split; [reflexivity|]. right. left. auto.
    + apply lt_false in L2. rewrite Ec. cbn.
      destruct (negb _); eexists; (split; [reflexivity|]); right; right; auto.
Qed.

Lemma candidate_scores_bounds (output : list Q) (i : nat) (objectness maxScore : Q) :
  candidate_scores output i = Some (objectness, maxScore) →
  0 <= maxScore ∧ (class_scores_at_most_one output i → maxScore <= 1).
Proof.
  unfold candidate_scores, mbind, option_bind. intros H.
  destruct (output !! (i * 85 + 4)%nat) as [o|]; [|discriminate].
  destruct (maxClass output (i * 85)) as [[m idx]|] eqn:Em; [|discriminate].
  injection H as -> ->.
  destruct (maxClass_bounds _ _ _ _ Em) as (H0 & _ & H1). auto.
Qed.

(** C4, as the code has it. A candidate whose combined confidence
    (objectness times the maximum class score the loop finds) is strictly
    below the threshold is dropped.  One whose combined confidence equals
    the threshold gets past the threshold filter provided its objectness is
    not itself below the threshold, which is the case whenever the
    objectness is not negative and no class score exceeds 1. *)
Theorem threshold_filter_boundary (config : YOLOConfig) (output : list Q)
    (scaleX scaleY : Q) (i : nat) (objectness maxScore : Q) :
  candidate_scores output i = Some (objectness, maxScore) →
  ∃ f,
    filterCandidate config output scaleX scaleY i = Some f ∧
    (objectness * maxScore < confidenceThreshold config → passes_threshold f = false) ∧
    (objectness * maxScore == confidenceThreshold config →
     ¬ objectness < confidenceThreshold config → passes_threshold f = true) ∧
    (objectness * maxScore == confidenceThreshold config →
     0 <= objectness → class_scores_at_most_one output i → passes_threshold f = true).
Proof.
  intros Hs.
  destruct (filterCandidate_verdict config output scaleX scaleY i _ _ Hs) as (f & Hf & Hv).
  destruct (candidate_scores_bounds output i _ _ Hs) as (Hm0 & Hm1).
  exists f. split; [exact Hf|].
  destruct Hv as [(Ho & ->)|[(Ho & Hc & ->)|(Ho & Hc & Hp)]].
  - split; [reflexivity|]. split; [intros _ Hn; now destruct Hn|].
    intros Heq Hpos Hcls. exfalso. specialize (Hm1 Hcls).
    assert (maxScore * objectness <= 1 * objectness)
      by (apply Qmult_le_compat_r; assumption).
    lra.
  - split; [reflexivity|]. split; intros; lra.
  - split; [intros; lra|]. split; intros; exact Hp.
Qed.

(** *** What the clock can and cannot change *)

Lemma existsb_same (config : YOLOConfig) (k k' : list DetectionResult) d d' :
  Forall2 same_content k k' → same_content d d' →
  existsb (λ e, suppresses config e d) k = existsb (λ e, suppresses config e d') k'.
Proof.
  intros Hk (_ & _ & Hb & _). induction Hk as [|e e' k k' (_ & _ & He & _) _ IH]; cbn.
  - reflexivity.
  - unfold suppresses at 1 3. now rewrite He, Hb, IH.
Qed.

Lemma select_same (config : YOLOConfig) (l l' : list DetectionResult) :
  Forall2 same_content l l' →
  ∀ k k', Forall2 same_content k k' →
          Forall2 same_content (select config k l) (select config k' l').
Proof.
  induction 1 as [|d d' l l' Hd _ IH]; intros k k' Hk; cbn [select].
  - constructor.
  - rewrite (existsb_same config k k' d d' Hk Hd).
    destruct (existsb _ k').
    + now apply IH.
    + constructor; [exact Hd|]. apply IH. apply Forall2_app; [exact Hk|].
      now constructor.
Qed.

Lemma sort_insert_same (a a' : DetectionResult) (l l' : list DetectionResult) :
  same_content a a' → Forall2 same_content l l' →
  Forall2 same_content (sort_insert by_confidence a l) (sort_insert by_confidence a' l').
Proof.
  intros Ha. induction 1 as [|b b' l l' Hb Hl IH]; cbn [sort_insert].
  - constructor; [exact Ha|constructor].
  - unfold by_confidence at 1 3.
    destruct Ha as (Ha1 & Ha2 & Ha3 & Ha4), Hb as (Hb1 & Hb2 & Hb3 & Hb4).
    rewrite Ha2, Hb2. destruct (gt _ _).
    + constructor; [repeat split; assumption|]. apply IH.
    + constructor; [repeat split; assumption|].
      constructor; [repeat split; assumption|exact Hl].
Qed.

Lemma sort_same (l l' : list DetectionResult) :
  Forall2 same_content l l' →
  Forall2 same_content (sort by_confidence l) (sort by_confidence l').
Proof.
  induction 1 as [|a a' l l' Ha _ IH]; cbn.
  - constructor.
  - now apply sort_insert_same.
Qed.

Lemma applyNMS_same (config : YOLOConfig) (l l' : list DetectionResult) :
  Forall2 same_content l l' →
  Forall2 same_content (applyNMS config l) (applyNMS config l').
Proof.
  intros H. rewrite !applyNMS_select. apply select_same; [|constructor].
  now apply sort_same.
Qed.

Lemma candidate_same config output scaleX scaleY now1 now2 i s1 s2 :
  same_state s1 s2 →
  same_state (s1 ≫= candidate config output scaleX scaleY now1 i)
             (s2 ≫= candidate config output scaleX scaleY now2 i).
Proof.
  intros [[d1 t1] [d2 t2] H|]; [|constructor]. cbn in H.
  unfold mbind, option_bind, candidate.
  destruct (filterCandidate config output scaleX scaleY i) as [f|]; [|constructor].
  destruct f; constructor; cbn; try exact H.
  apply Forall2_app; [exact H|]. repeat constructor.
Qed.

Lemma decode_same config output scaleX scaleY now1 t1 now2 t2 :
  same_state (decode config output scaleX scaleY now1 t1)
             (decode config output scaleX scaleY now2 t2).
Proof.
  unfold decode.
  assert (H0 : same_state (Some ([], t1)) (Some ([], t2))) by (constructor; constructor).
  revert H0. generalize (Some (@nil DetectionResult, t1)) (Some (@nil DetectionResult, t2)).
  induction (seq 0 (rounds output)) as [|i js IH]; intros s1 s2 H; [exact H|].
  apply IH. now apply candidate_same.
Qed.

(** Stability of the sort: detections of one confidence keep their order. *)
Lemma filter_sort_insert (c : Q) (a : DetectionResult) (sorted : list DetectionResult) :
  filter (of_confidence c) (sort_insert by_confidence a sorted) =
  filter (of_confidence c) (a :: sorted).
Proof.
  induction sorted as [|b rest IH]; cbn [sort_insert]; [reflexivity|].
  destruct (gt _ _) eqn:E; [|reflexivity].
  apply gt_by_confidence in E.
  destruct (decide (of_confidence c a)) as [Ha|Ha].
  - assert (Hb : ¬ of_confidence c b) by (unfold of_confidence in *; lra).
    rewrite (filter_cons_False _ b) by exact Hb. rewrite IH.
    rewrite !(filter_cons_True _ a) by exact Ha.
    now rewrite (filter_cons_False _ b) by exact Hb.
  - rewrite (filter_cons_False _ a (b :: rest)) by exact Ha.
    rewrite !(filter_cons _ b). rewrite IH.
    now rewrite (filter_cons_False _ a) by exact Ha.
Qed.

Lemma filter_sort (c : Q) (l : list DetectionResult) :
  filter (of_confidence c) (sort by_confidence l) = filter (of_confidence c) l.
Proof.
  induction l as [|a l IH]; [reflexivity|].
  cbn [sort foldr]. fold (sort by_confidence l).
  rewrite filter_sort_insert, !filter_cons, IH. reflexivity.
Qed.

Lemma filter_sublist_mono (c : Q) (l1 l2 : list DetectionResult) :
  l1 `sublist_of` l2 →
  filter (of_confidence c) l1 `sublist_of` filter (of_confidence c) l2.
Proof.
  induction 1 as [|d l1 l2 _ IH|d l1 l2 _ IH]; [constructor| |].
  - rewrite !(filter_cons _ d). destruct (decide _); [now constructor|exact IH].
  - rewrite (filter_cons _ d). destruct (decide _); [now constructor|exact IH].
Qed.

(** C9, as the code has it. For a fixed raw output, scale factors and
    configuration, two runs of the postprocessing at any two times yield the
    same detections in the same order with the same class, confidence, bbox
    and center; [id] and [timestamp] are read off the wall clock and are
    not covered.  Detections of equal confidence come out in the order in
    which they were decoded, that is by candidate index. *)
Theorem postprocess_deterministic_up_to_clock (config : YOLOConfig) (output : list Q)
    (scaleX scaleY : Q) (now1 now2 : Clock) (t1 t2 : nat) :
  option_Forall2 (Forall2 same_content)
    (fst <$> postprocessResults config output scaleX scaleY now1 t1)
    (fst <$> postprocessResults config output scaleX scaleY now2 t2) ∧
  (∀ decoded t',
      decode config output scaleX scaleY now1 t1 = Some (decoded, t') →
      postprocessResults config output scaleX scaleY now1 t1
        = Some (applyNMS config decoded, t') ∧
      ∀ c, filter (of_confidence c) (applyNMS config decoded)
             `sublist_of` filter (of_confidence c) decoded).
Proof.
  split.
  - unfold postprocessResults.
    destruct (decode_same config output scaleX scaleY now1 t1 now2 t2)
      as [[d1 u1] [d2 u2] H|]; cbn; constructor.
    now apply applyNMS_same.
  - intros decoded t' H. unfold postprocessResults. rewrite H. split; [reflexivity|].
    intros c. rewrite applyNMS_select, <- (filter_sort c decoded).
    apply filter_sublist_mono, select_sublist.
Qed.

(** *** The embedding on well-formed input *)


Lemma sort_insert_permutation {A} (comparefn : A → A → Q) (a : A) (sorted : list A) :
  sort_insert comparefn a sorted ≡ₚ a :: sorted.
Proof.
  induction sorted as [|b rest IH]; cbn [sort_insert]; [reflexivity|].
  destruct (gt _ _); [|reflexivity].
  rewrite IH. apply Permutation_swap.
Qed.

(** The sort rearranges, and neither drops nor repeats a detection. *)
Lemma sort_permutation {A} (comparefn : A → A → Q) (l : list A) :
  sort comparefn l ≡ₚ l.
Proof.
  induction l as [|a l IH]; [reflexivity|].
  cbn [sort foldr]. fold (sort comparefn l).
  now rewrite sort_insert_permutation, IH.
Qed.

(** [isInitialized] is never set without a session: the detector built by
    the constructor, then initialised and disposed of at will, is [Ready]
    exactly when [isInitialized] holds. *)
Lemma initialize_keeps_session (env : Browser) (this : YOLO11Detector) :
  (isInitialized this = true → is_Some (session this)) →
  let this' := snd (initialize env this) in
  (isInitialized this' = true → is_Some (session this')) ∧
  (fst (initialize env this) = true → Ready this').
Proof.
  intros Inv. unfold initialize, Ready.
  destruct (fetch_ok env _) as [[|]|]; cbn; auto; try (split; [exact Inv|discriminate]).
  destruct (create_session env _) as [s|]; cbn; eauto.
  split; [exact Inv|discriminate].
Qed.

Lemma dispose_not_ready (this : YOLO11Detector) : ¬ Ready (dispose this).
Proof. intros [H _]. discriminate H. Qed.

Lemma class_fold_total (output : list Q) (offset : nat) (js : list nat) :
  (∀ j, j ∈ js → is_Some (output !! (offset + 5 + j)%nat)) →
  ∀ acc, is_Some (foldl (class_step output offset) (Some acc) js).
Proof.
  induction js as [|j js IH]; intros Hjs acc; [eauto|].
  change (is_Some (foldl (class_step output offset)
                     (class_step output offset (Some acc) j) js)).
  destruct (Hjs j) as [v Hv]; [now left|].
  unfold class_step at 2, mbind, option_bind. destruct acc as [m idx]. rewrite Hv.
  apply IH. intros k Hk. apply Hjs. now right.
Qed.

(** A whole record is always classified. *)
Lemma filterCandidate_total (config : YOLOConfig) (output : list Q)
    (scaleX scaleY : Q) (i : nat) :
  (i * 85 + 85 <= length output)%nat →
  is_Some (filterCandidate config output scaleX scaleY i).
Proof.
  intros Hlen.
  destruct (lookup_lt_is_Some_2 output (i * 85 + 4)%nat ltac:(lia)) as [o Ho].
  destruct (class_fold_total output (i * 85) (seq 0 80)) with (acc := (0, 0%nat))
    as [[m idx] Hm].
  { intros j Hj. apply elem_of_seq in Hj. apply lookup_lt_is_Some_2. lia. }
  rewrite <- maxClass_fold in Hm.
  destruct (filterCandidate_verdict config output scaleX scaleY i o m) as (f & Hf & _).
  { unfold candidate_scores, mbind, option_bind. now rewrite Ho, Hm. }
  eauto.
Qed.

Lemma rounds_whole (output : list Q) (n : nat) :
  length output = (85 * n)%nat → rounds output = n.
Proof.
  intros Hlen. unfold rounds. rewrite Hlen.
  assert (E : inject_Z (Z.of_nat (85 * n)) / 85 == inject_Z (Z.of_nat n)).
  { rewrite Nat2Z.inj_mul, inject_Z_mult. change (inject_Z (Z.of_nat 85)) with 85. field. }
  rewrite E, Qceiling_Z. apply Nat2Z.id.
Qed.

(** On a raw output made of whole records, the length the specification
    prescribes, [postprocessResults] yields its detections. *)
Lemma postprocessResults_total (config : YOLOConfig) (output : list Q)
    (scaleX scaleY : Q) (now : Clock) (ticks n : nat) :
  length output = (85 * n)%nat →
  is_Some (postprocessResults config output scaleX scaleY now ticks).
Proof.
  intros Hlen. unfold postprocessResults, decode. rewrite (rounds_whole output n Hlen).
  assert (Hall : ∀ i, i ∈ seq 0 n → (i * 85 + 85 <= length output)%nat)
    by (intros i Hi; apply elem_of_seq in Hi; lia).
  assert (Hd : ∀ js state,
             (∀ i, i ∈ js → (i * 85 + 85 <= length output)%nat) →
             is_Some (foldl (λ state i, state ≫= candidate config output scaleX scaleY now i)
                        (Some state) js)).
  { induction js as [|i js IH]; intros state Hjs; [eauto|].
    cbn [foldl]. unfold mbind at 2, option_bind at 2.
    destruct (filterCandidate_total config output scaleX scaleY i) as [f Hf];
      [apply Hjs; now left|].
    destruct state as [detections t]. unfold candidate, mbind, option_bind. rewrite Hf.
    destruct f; apply IH; intros k Hk; apply Hjs; now right. }
  destruct (Hd (seq 0 n) ([], ticks) Hall) as [[detections t] ->]. cbn. eauto.
Qed.

(** *** The properties at concrete inputs *)


(** Objectness 0.25 with a class score of 2: the combined confidence is
    exactly the threshold 0.5, and the candidate is dropped by the first
    comparison, on the objectness alone. *)
Lemma low_objectness_dropped_at_threshold :
  let output := record [0; 0; 10; 10] (1 # 4) 0 2 in
  candidate_scores output 0 = Some (1 # 4, 2) ∧
  (1 # 4) * 2 == confidenceThreshold example_config ∧
  filterCandidate example_config output 1 1 0 = Some below_objectness ∧
  passes_threshold below_objectness = false.
Proof. cbv zeta. repeat split; vm_compute; reflexivity. Qed.

Lemma threshold_filter_boundary_witness :
  let output := record [0; 0; 10; 10] (1 # 2) 0 1 in
  candidate_scores output 0 = Some (1 # 2, 1) ∧
  ∃ f, filterCandidate example_config output 1 1 0 = Some f ∧
       passes_threshold f = true.
Proof.
  cbv zeta.
  assert (Hs : candidate_scores (record [0; 0; 10; 10] (1 # 2) 0 1) 0 = Some (1 # 2, 1))
    by (vm_compute; reflexivity).
  split; [exact Hs|].
  destruct (threshold_filter_boundary example_config _ 1 1 0 _ _ Hs)
    as (f & Hf & _ & Heq & _).
  exists f. split; [exact Hf|]. apply Heq.
  - reflexivity.
  - cbn. lra.
Defined.

(** The same raw output postprocessed at two different times: the two
    results differ, in [id] and in [timestamp]. *)
Lemma ids_follow_the_clock :
  (map id ∘ fst) <$> postprocessResults example_config person_output 1 1 early 0
    = Some ["person_1000_0"] ∧
  (map id ∘ fst) <$> postprocessResults example_config person_output 1 1 late 0
    = Some ["person_2000_0"] ∧
  (map timestamp ∘ fst) <$> postprocessResults example_config person_output 1 1 early 0
    = Some [1000%Z] ∧
  (map timestamp ∘ fst) <$> postprocessResults example_config person_output 1 1 late 0
    = Some [2000%Z] ∧
  fst <$> postprocessResults example_config person_output 1 1 early 0
    ≠ fst <$> postprocessResults example_config person_output 1 1 late 0.
Proof.
  assert (He : (map id ∘ fst) <$> postprocessResults example_config person_output 1 1 early 0
               = Some ["person_1000_0"]) by (vm_compute; reflexivity).
  assert (Hl : (map id ∘ fst) <$> postprocessResults example_config person_output 1 1 late 0
               = Some ["person_2000_0"]) by (vm_compute; reflexivity).
  split; [exact He|]. split; [exact Hl|].
  split; [vm_compute; reflexivity|]. split; [vm_compute; reflexivity|].
  intros E.
  assert (E' : (map id ∘ fst) <$> postprocessResults example_config person_output 1 1 early 0
               = (map id ∘ fst) <$> postprocessResults example_config person_output 1 1 late 0).
  { destruct (postprocessResults example_config person_output 1 1 early 0) as [[d1 u1]|],
             (postprocessResults example_config person_output 1 1 late 0) as [[d2 u2]|];
      cbn in *; congruence. }
  rewrite He, Hl in E'. discriminate E'.
Qed.

Lemma postprocess_deterministic_up_to_clock_witness :
  ∃ decoded t',
    decode example_config tied_output 1 1 early 0 = Some (decoded, t') ∧
    postprocessResults example_config tied_output 1 1 early 0
      = Some (applyNMS example_config decoded, t') ∧
    map class (filter (of_confidence (8 # 10)) (applyNMS example_config decoded))
      = ["person"; "cup"].
Proof.
  destruct (decode example_config tied_output 1 1 early 0) as [[decoded t']|] eqn:E.
  - exists decoded, t'. split; [reflexivity|].
    split.
    + exact (proj1 (proj2 (postprocess_deterministic_up_to_clock example_config tied_output
                             1 1 early late 0 0) decoded t' E)).
    + vm_compute in E. injection E as <- <-. vm_compute. reflexivity.
  - vm_compute in E. discriminate E.
Defined.

End YoloProps.

(** * Further properties of the device protocol controller *)

Module HapticExtra.

Import Haptic HapticProps.
Local Open Scope Z_scope.

Local Arguments ToUint8 : simpl never.
Local Arguments ToUint16 : simpl never.
Local Arguments ToInt8 : simpl never.
Local Arguments Binary64.floor : simpl never.
Local Arguments Binary64.mul : simpl never.
Local Arguments Binary64.of_Z : simpl never.
Local Arguments member_number : simpl never.
Local Arguments num : simpl never.
Local Arguments getPatternCode : simpl never.
Local Arguments calculateChecksum : simpl never.
Local Arguments byte_sum : simpl never.
Local Arguments Z.modulo : simpl never.
Local Arguments Z.div : simpl never.
Local Arguments Qmult : simpl never.

(** *** The checksum *)

Lemma byte_sum_insert (body : list Z) :
  ∀ i old new,
    body !! i = Some old →
    byte_sum (<[i := new]> body) = byte_sum body - old + new.
Proof.
  unfold byte_sum.
  induction body as [|b body IH]; intros i old new H; [discriminate|].
  destruct i as [|i]; cbn in H.
  - injection H as ->. cbn. lia.
  - pose proof (IH i old new H) as E.
    change (b + foldr Z.add 0 (<[i := new]> body) = b + foldr Z.add 0 body - old + new).
    lia.
Qed.

(** X1. One corrupted byte is always noticed: replacing any byte of the
    summed part of a frame by a different byte changes the checksum. *)
Theorem checksum_detects_single_byte_error (body : list Z) (i : nat) (old new : Z) :
  body !! i = Some old → is_byte old → is_byte new → new ≠ old →
  calculateChecksum (<[i := new]> body) ≠ calculateChecksum body.
Proof.
  intros Hi Ho Hn Hne. rewrite !calculateChecksum_mod, (byte_sum_insert body i old new Hi).
  unfold is_byte in *. intros E.
  assert (Hd : (new - old) mod 256 = 0).
  { replace (new - old) with ((byte_sum body - old + new) - byte_sum body) by lia.
    rewrite Zminus_mod, E, Z.sub_diag. reflexivity. }
  apply Z.mod_divide in Hd; [|lia]. destruct Hd as [k Hk]. lia.
Qed.

Lemma checksum_detects_single_byte_error_witness :
  calculateChecksum (<[2%nat := 201]> [1; 255; 200; 0; 100; 0; 1])
  ≠ calculateChecksum [1; 255; 200; 0; 100; 0; 1].
Proof.
  apply (checksum_detects_single_byte_error _ 2 200 201);
    [reflexivity|unfold is_byte; lia|unfold is_byte; lia|lia].
Defined.

(** *** The bytes of a frame *)

Lemma ToUint8_byte (x : Q) : is_byte (ToUint8 x).
Proof. unfold is_byte, ToUint8. change (2 ^ 8) with 256. apply Z.mod_pos_bound. lia. Qed.

Lemma ToUint16_bytes (x : Q) :
  is_byte (ToUint16 x mod 256) ∧ is_byte (ToUint16 x / 256).
Proof.
  unfold is_byte, ToUint16. change (2 ^ 16) with 65536.
  pose proof (Z.mod_pos_bound (trunc x) 65536 ltac:(lia)).
  split; [apply Z.mod_pos_bound; lia|].
  split; [apply Z.div_pos; lia|apply Z.div_lt_upper_bound; lia].
Qed.

Lemma pattern_code_range (p : Pattern) :
  pattern_of_code (ToUint8 (member_number (getPatternCode (pattern_string p)))) = Some p.
Proof. now destruct p. Qed.

(** X2. Whatever the config, every element of a frame the controller
    builds is a byte: a number from 0 to 255. *)
Theorem frames_are_bytes :
  (∀ config, ∃ frame, vibrationCommand config = Normal frame ∧ Forall is_byte frame) ∧
  (∀ config, ∃ frame, temperatureCommand config = Normal frame ∧ Forall is_byte frame) ∧
  (∃ frame, stopAllCommand = Normal frame ∧ Forall is_byte frame).
Proof.
  split; [|split].
  - intros config. eexists. split; [apply vibrationCommand_bytes|].
    destruct (ToUint16_bytes (frequency config)), (ToUint16_bytes (v_duration config)).
    repeat (apply Forall_cons_2); try apply Forall_nil_2; auto using ToUint8_byte;
      try (unfold is_byte; lia); apply Z.mod_pos_bound; lia.
  - intros config. eexists. split; [apply temperatureCommand_bytes|].
    destruct (ToUint16_bytes (rampTime config)), (ToUint16_bytes (holdTime config)).
    repeat (apply Forall_cons_2); try apply Forall_nil_2; auto;
      try (unfold is_byte; lia); apply Z.mod_pos_bound; lia.
  - eexists. split; [apply stopAllCommand_bytes|].
    repeat (apply Forall_cons_2); try apply Forall_nil_2; unfold is_byte; lia.
Qed.

(** *** Values in range are encoded exactly *)

Lemma trunc_whole (x : Q) (z : Z) : (x == num z)%Q → trunc x = z.
Proof.
  unfold Qeq, num, trunc. cbn. rewrite Z.mul_1_r. intros ->.
  apply Z.quot_mul. discriminate.
Qed.

Lemma ToUint16_whole (x : Q) (z : Z) :
  (x == num z)%Q → 0 <= z <= 65535 →
  u16_le (ToUint16 x mod 256) (ToUint16 x / 256) = z.
Proof.
  intros Hx Hz. unfold u16_le. rewrite u16_little_endian, (trunc_whole x z Hx).
  apply Z.mod_small. lia.
Qed.

(** X3. A vibration config within range is encoded without loss.  For an
    intensity from 0 to 1 the intensity byte is the floor of the binary64
    product of the intensity and 255, and lies between 0 and 255, so that
    nothing wraps; the two byte pairs spell the frequency and the duration
    low byte first, and the pattern code names the pattern. *)
Theorem vibration_in_range_is_exact (config : VibrationConfig) (f d : Z) :
  (frequency config == num f)%Q → 0 <= f <= 65535 →
  (v_duration config == num d)%Q → 0 <= d <= 65535 →
  Binary64.valid (v_intensity config) = true →
  Binary64.leb (Binary64.of_Z 0) (v_intensity config) = true →
  Binary64.leb (v_intensity config) (Binary64.of_Z 1) = true →
  ∃ level lo_f hi_f lo_d hi_d code sum,
    vibrationCommand config = Normal [1; level; lo_f; hi_f; lo_d; hi_d; code; sum] ∧
    level = Binary64.floor (Binary64.mul (v_intensity config) (Binary64.of_Z 255)) ∧
    0 <= level <= 255 ∧
    u16_le lo_f hi_f = f ∧ u16_le lo_d hi_d = d ∧
    pattern_of_code code = Some (pattern config).
Proof.
  intros Hf Hfr Hd Hdr Hv H0 H1.
  assert (Hl : 0 <= Binary64.floor (Binary64.mul (v_intensity config) (Binary64.of_Z 255))
               <= 255).
  { rewrite !Binary64Props.of_Z_repr in * by (cbn; lia).
    apply Binary64Props.floor_mul_unit; auto. lia. }
  assert (E : ToUint8 (num (Binary64.floor
                              (Binary64.mul (v_intensity config) (Binary64.of_Z 255))))
              = Binary64.floor (Binary64.mul (v_intensity config) (Binary64.of_Z 255)))
    by (rewrite ToUint8_num; apply Z.mod_small; lia).
  do 7 eexists. split; [apply vibrationCommand_bytes|]. rewrite E.
  split; [reflexivity|]. split; [exact Hl|].
  split; [now apply ToUint16_whole|]. split; [now apply ToUint16_whole|].
  apply pattern_code_range.
Qed.

Lemma vibration_in_range_is_exact_witness :
  ∃ level lo_f hi_f lo_d hi_d code sum,
    vibrationCommand {| v_intensity := Binary64.decimal 6 10; frequency := 200;
                        pattern := soft; v_duration := 300 |}
      = Normal [1; level; lo_f; hi_f; lo_d; hi_d; code; sum] ∧
    level = 153 ∧ u16_le lo_f hi_f = 200 ∧ u16_le lo_d hi_d = 300 ∧
    pattern_of_code code = Some soft.
Proof.
  destruct (vibration_in_range_is_exact
              {| v_intensity := Binary64.decimal 6 10; frequency := 200; pattern := soft;
                 v_duration := 300 |}
              200 300)
    as (level & lo_f & hi_f & lo_d & hi_d & code & sum & H & Hl & _ & Hf & Hd & Hp);
    try reflexivity; try lia.
  exists level, lo_f, hi_f, lo_d, hi_d, code, sum.
  split; [exact H|]. split; [rewrite Hl; reflexivity|]. auto.
Defined.

Lemma int8_whole (x : Q) (z : Z) :
  (x == num z)%Q → -128 <= z <= 127 → int8_of_byte (ToInt8 x mod 256) = z.
Proof.
  intros Hx Hz. rewrite ToInt8_byte, (trunc_whole x z Hx). unfold int8_of_byte.
  destruct (Z_lt_le_dec z 0) as [Hneg|Hpos].
  - assert (E : z mod 256 = z + 256).
    { symmetry. apply (Z.mod_unique z 256 (-1)); lia. }
    rewrite E. destruct (z + 256 <? 128) eqn:L; [apply Z.ltb_lt in L; lia|lia].
  - rewrite Z.mod_small by lia. destruct (z <? 128) eqn:L; [reflexivity|].
    apply Z.ltb_ge in L. lia.
Qed.

(** X4. A temperature config within range is encoded without loss: byte 1
    is the target in two's complement, negative targets included, and the
    two byte pairs spell the ramp and hold times low byte first. *)
Theorem temperature_in_range_is_exact (config : TemperatureConfig) (t r h : Z) :
  (target config == num t)%Q → -128 <= t <= 127 →
  (rampTime config == num r)%Q → 0 <= r <= 65535 →
  (holdTime config == num h)%Q → 0 <= h <= 65535 →
  ∃ b1 lo_r hi_r lo_h hi_h sum,
    temperatureCommand config = Normal [2; b1; lo_r; hi_r; lo_h; hi_h; 0; sum] ∧
    int8_of_byte b1 = t ∧ u16_le lo_r hi_r = r ∧ u16_le lo_h hi_h = h.
Proof.
  intros Ht Htr Hr Hrr Hh Hhr.
  do 6 eexists. split; [apply temperatureCommand_bytes|].
  split; [now apply int8_whole|]. split; now apply ToUint16_whole.
Qed.

Lemma temperature_in_range_is_exact_witness :
  ∃ b1 lo_r hi_r lo_h hi_h sum,
    temperatureCommand {| target := -5; rampTime := 200; holdTime := 300 |}
      = Normal [2; b1; lo_r; hi_r; lo_h; hi_h; 0; sum] ∧
    int8_of_byte b1 = -5 ∧ u16_le lo_r hi_r = 200 ∧ u16_le lo_h hi_h = 300.
Proof.
  apply (temperature_in_range_is_exact
           {| target := -5; rampTime := 200; holdTime := 300 |} (-5) 200 300);
    try reflexivity; lia.
Defined.



(** *** What a send does in each situation *)

(** The four outcomes of [sendVibration]. *)
Lemma sendVibration_cases (bt : Bluetooth) (config : VibrationConfig)
    (this : HapticController) :
  ∃ frame, vibrationCommand config = Normal frame ∧
  ((isConnected this = false ∨ capability vibration this = false) ∧
   sendVibration bt config this = (Normal false, this)
   ∨
   (isConnected this = true ∧ capability vibration this = true ∧
    characteristics this !! VIBRATION_CHARACTERISTIC_UUID = None ∧
    ∃ this', sendVibration bt config this = (Normal false, this') ∧
             written this' = written this ∧ isConnected this' = isConnected this ∧
             emitted this' =
               emitted this ++ [error_event "VIBRATION_FAILED" "振动特征不可用"])
   ∨
   (∃ ch, vibration_ready this ch ∧
          writeValue bt (written this) ch frame = None ∧
          ∃ this', sendVibration bt config this = (Normal true, this') ∧
                   written this' =
                     written this ++ [ {| w_uuid := uuid ch; w_data := frame |} ] ∧
                   isConnected this' = isConnected this ∧
                   emitted this' = emitted this)
   ∨
   (∃ ch message, vibration_ready this ch ∧
          writeValue bt (written this) ch frame = Some message ∧
          ∃ this', sendVibration bt config this = (Normal false, this') ∧
                   written this' =
                     written this ++ [ {| w_uuid := uuid ch; w_data := frame |} ] ∧
                   isConnected this' = isConnected this ∧
                   emitted this' =
                     emitted this ++ [error_event "VIBRATION_FAILED" message])).
Proof.
  eexists. split; [apply vibrationCommand_bytes|].
  unfold sendVibration, bind, get, try_catch, await, write, ret, throw, emit, update,
    vibration_ready.
  destruct (isConnected this) eqn:Hc; cbn [negb orb]; [|left; auto].
  destruct (capability vibration this) eqn:Hv; cbn [negb orb]; [|left; auto].
  destruct (characteristics this !! VIBRATION_CHARACTERISTIC_UUID) as [ch|] eqn:Hch.
  - rewrite vibrationCommand_bytes. cbv beta iota.
    match goal with |- context [writeValue bt ?w ?c ?f] =>
      destruct (writeValue bt w c f) as [message|] eqn:Hw end.
    + right. right. right. exists ch, message.
      split; [auto|]. split; [exact Hw|]. eexists.
      split; [reflexivity|]. repeat split; cbn; auto.
    + right. right. left. exists ch.
      split; [auto|]. split; [exact Hw|]. eexists.
      split; [reflexivity|]. repeat split; cbn; auto.
  - right. left. do 3 (split; [reflexivity|]). eexists.
    split; [reflexivity|]. repeat split; cbn; auto.
Qed.

Lemma sendTemperature_cases (bt : Bluetooth) (config : TemperatureConfig)
    (this : HapticController) :
  ∃ frame, temperatureCommand config = Normal frame ∧
  ((isConnected this = false ∨ capability temperature this = false) ∧
   sendTemperature bt config this = (Normal false, this)
   ∨
   (isConnected this = true ∧ capability temperature this = true ∧
    characteristics this !! TEMPERATURE_CHARACTERISTIC_UUID = None ∧
    ∃ this', sendTemperature bt config this = (Normal false, this') ∧
             written this' = written this ∧ isConnected this' = isConnected this ∧
             emitted this' =
               emitted this ++ [error_event "TEMPERATURE_FAILED" "温度特征不可用"])
   ∨
   (∃ ch, temperature_ready this ch ∧
          writeValue bt (written this) ch frame = None ∧
          ∃ this', sendTemperature bt config this = (Normal true, this') ∧
                   written this' =
                     written this ++ [ {| w_uuid := uuid ch; w_data := frame |} ] ∧
                   isConnected this' = isConnected this ∧
                   emitted this' = emitted this)
   ∨
   (∃ ch message, temperature_ready this ch ∧
          writeValue bt (written this) ch frame = Some message ∧
          ∃ this', sendTemperature bt config this = (Normal false, this') ∧
                   written this' =
                     written this ++ [ {| w_uuid := uuid ch; w_data := frame |} ] ∧
                   isConnected this' = isConnected this ∧
                   emitted this' =
                     emitted this ++ [error_event "TEMPERATURE_FAILED" message])).
Proof.
  eexists. split; [apply temperatureCommand_bytes|].
  unfold sendTemperature, bind, get, try_catch, await, write, ret, throw, emit, update,
    temperature_ready.
  destruct (isConnected this) eqn:Hc; cbn [negb orb]; [|left; auto].
  destruct (capability temperature this) eqn:Hv; cbn [negb orb]; [|left; auto].
  destruct (characteristics this !! TEMPERATURE_CHARACTERISTIC_UUID) as [ch|] eqn:Hch.
  - rewrite temperatureCommand_bytes. cbv beta iota.
    match goal with |- context [writeValue bt ?w ?c ?f] =>
      destruct (writeValue bt w c f) as [message|] eqn:Hw end.
    + right. right. right. exists ch, message.
      split; [auto|]. split; [exact Hw|]. eexists.
      split; [reflexivity|]. repeat split; cbn; auto.
    + right. right. left. exists ch.
      split; [auto|]. split; [exact Hw|]. eexists.
      split; [reflexivity|]. repeat split; cbn; auto.
  - right. left. do 3 (split; [reflexivity|]). eexists.
    split; [reflexivity|]. repeat split; cbn; auto.
Qed.

(** A send resolves, and leaves the link state alone. *)
Lemma sendVibration_resolves bt config this :
  ∃ b this', sendVibration bt config this = (Normal b, this') ∧
             isConnected this' = isConnected this.
Proof.
  destruct (sendVibration_cases bt config this)
    as (frame & _ & [[_ H]|[(_ & _ & _ & c & H & _ & Hc & _)
                    |[(ch & _ & _ & c & H & _ & Hc & _)
                     |(ch & m & _ & _ & c & H & _ & Hc & _)]]]); eauto.
Qed.

Lemma sendTemperature_resolves bt config this :
  ∃ b this', sendTemperature bt config this = (Normal b, this') ∧
             isConnected this' = isConnected this.
Proof.
  destruct (sendTemperature_cases bt config this)
    as (frame & _ & [[_ H]|[(_ & _ & _ & c & H & _ & Hc & _)
                    |[(ch & _ & _ & c & H & _ & Hc & _)
                     |(ch & m & _ & _ & c & H & _ & Hc & _)]]]); eauto.
Qed.



(** X7. [stopAllFeedback] asks for no capability and reports no error. Not
    connected it returns false; connected without the vibration
    characteristic it returns true although nothing was sent; otherwise it
    writes the frame 3, 3 to the vibration characteristic and returns
    whether the write went through, emitting no event either way. *)
Theorem stopAllFeedback_cases :
  (∀ bt this,
      isConnected this = false → stopAllFeedback bt this = (Normal false, this)) ∧
  (∀ bt this,
      isConnected this = true →
      characteristics this !! VIBRATION_CHARACTERISTIC_UUID = None →
      stopAllFeedback bt this = (Normal true, this)) ∧
  (∀ bt this ch,
      isConnected this = true →
      characteristics this !! VIBRATION_CHARACTERISTIC_UUID = Some ch →
      ∃ this',
        stopAllFeedback bt this =
          (Normal (bool_decide (writeValue bt (written this) ch [3; 3] = None)), this') ∧
        written this' = written this ++ [ {| w_uuid := uuid ch; w_data := [3; 3] |} ] ∧
        emitted this' = emitted this ∧ isConnected this' = isConnected this).
Proof.
  split; [|split].
  - intros bt this Hc. unfold stopAllFeedback, bind, get. now rewrite Hc.
  - intros bt this Hc Hch. unfold stopAllFeedback, bind, get, try_catch, ret.
    rewrite Hc. cbn [negb]. now rewrite Hch.
  - intros bt this ch Hc Hch.
    unfold stopAllFeedback, bind, get, try_catch, ret, await, write.
    rewrite Hc. cbn [negb]. cbv beta iota. rewrite Hch, stopAllCommand_bytes.
    cbv beta iota.
    destruct (writeValue bt (written this) ch [3; 3]) as [m|] eqn:Hw.
    + eexists. rewrite bool_decide_eq_false_2 by discriminate.
      split; [reflexivity|]. repeat split; cbn; auto.
    + eexists. rewrite bool_decide_eq_true_2 by reflexivity.
      split; [reflexivity|]. repeat split; cbn; auto.
Qed.

Lemma stopAllFeedback_cases_witness :
  stopAllFeedback no_status_stack new_HapticController = (Normal false, new_HapticController) ∧
  stopAllFeedback no_status_stack bare_controller = (Normal true, bare_controller) ∧
  ∃ this', stopAllFeedback refusing_stack connected_controller = (Normal false, this') ∧
           written this' = [ {| w_uuid := VIBRATION_CHARACTERISTIC_UUID; w_data := [3; 3] |} ] ∧
           emitted this' = [].
Proof.
  destruct stopAllFeedback_cases as (H1 & H2 & H3).
  split; [apply H1; reflexivity|]. split; [apply H2; reflexivity|].
  destruct (H3 refusing_stack connected_controller
              {| uuid := VIBRATION_CHARACTERISTIC_UUID |} eq_refl eq_refl)
    as (c & H & Hw & He & _).
  exists c. split; [exact H|]. split; [exact Hw|exact He].
Defined.

(** X8. [sendHapticFeedback] does not stop at the first failure. With both
    parts present the vibration is sent, then the temperature from the
    state the vibration left, whatever the vibration returned, and the
    result is the conjunction of the two; with one part present the result
    is that of the one send. *)
Theorem sendHapticFeedback_sends_every_part (bt : Bluetooth) (profile : HapticProfile)
    (this : HapticController) :
  (∀ v t,
      p_vibration profile = Some v → p_temperature profile = Some t →
      ∃ rv c1 rt c2,
        sendVibration bt v this = (Normal rv, c1) ∧
        sendTemperature bt t c1 = (Normal rt, c2) ∧
        sendHapticFeedback bt profile this = (Normal (rv && rt), c2)) ∧
  (∀ v,
      p_vibration profile = Some v → p_temperature profile = None →
      ∃ rv c1,
        sendVibration bt v this = (Normal rv, c1) ∧
        sendHapticFeedback bt profile this = (Normal rv, c1)) ∧
  (∀ t,
      p_vibration profile = None → p_temperature profile = Some t →
      ∃ rt c1,
        sendTemperature bt t this = (Normal rt, c1) ∧
        sendHapticFeedback bt profile this = (Normal rt, c1)).
Proof.
  split; [|split].
  - intros v t Hv Ht.
    destruct (sendVibration_resolves bt v this) as (rv & c1 & E1 & _).
    destruct (sendTemperature_resolves bt t c1) as (rt & c2 & E2 & _).
    exists rv, c1, rt, c2. split; [exact E1|]. split; [exact E2|].
    unfold sendHapticFeedback. rewrite Hv, Ht. unfold bind at 1. unfold bind at 1.
    rewrite E1. unfold ret at 1. unfold bind at 1. unfold bind at 1. rewrite E2.
    unfold ret. cbn. now rewrite andb_true_r.
  - intros v Hv Ht.
    destruct (sendVibration_resolves bt v this) as (rv & c1 & E1 & _).
    exists rv, c1. split; [exact E1|].
    unfold sendHapticFeedback. rewrite Hv, Ht. unfold bind at 1. unfold bind at 1.
    rewrite E1. unfold ret, bind. cbn. now rewrite andb_true_r.
  - intros t Hv Ht.
    destruct (sendTemperature_resolves bt t this) as (rt & c1 & E1 & _).
    exists rt, c1. split; [exact E1|].
    unfold sendHapticFeedback. rewrite Hv, Ht. unfold bind at 1. unfold ret at 1.
    unfold bind at 1. unfold bind at 1. rewrite E1. unfold ret. cbn.
    now rewrite andb_true_r.
Qed.

Lemma sendHapticFeedback_sends_every_part_witness :
  ∃ c2,
    sendHapticFeedback no_status_stack
      {| p_vibration := Some example_vibration;
         p_temperature := Some {| target := 18; rampTime := 200; holdTime := 300 |};
         duration := 400; intensity := 1 |}
      no_vibration_controller = (Normal false, c2) ∧
    written c2 =
      [ {| w_uuid := TEMPERATURE_CHARACTERISTIC_UUID;
           w_data := [2; 18; 200; 0; 44; 1; 0; 9] |} ].
Proof.
  destruct (proj1 (sendHapticFeedback_sends_every_part no_status_stack
                     {| p_vibration := Some example_vibration;
                        p_temperature :=
                          Some {| target := 18; rampTime := 200; holdTime := 300 |};
                        duration := 400; intensity := 1 |}
                     no_vibration_controller) _ _ eq_refl eq_refl)
    as (rv & c1 & rt & c2 & E1 & E2 & E).
  vm_compute in E1. injection E1 as <- <-.
  vm_compute in E2. injection E2 as <- <-.
  eexists. split; [exact E|]. reflexivity.
Defined.

(** *** The status payload *)

Lemma land_pow2 (b k : Z) :
  0 <= k → negb (Z.land b (2 ^ k) =? 0) = Z.testbit b k.
Proof.
  intros Hk.
  assert (E : Z.land b (2 ^ k) = if Z.testbit b k then 2 ^ k else 0).
  { apply Z.bits_inj'. intros n Hn. rewrite Z.land_spec, Z.pow2_bits_eqb by lia.
    destruct (Z.eqb_spec k n) as [->|Hne].
    - destruct (Z.testbit b n) eqn:Eb; [|now rewrite Z.bits_0].
      now rewrite Z.pow2_bits_eqb, Z.eqb_refl by lia.
    - rewrite andb_false_r. destruct (Z.testbit b k); [|now rewrite Z.bits_0].
      rewrite Z.pow2_bits_eqb by lia. symmetry. now apply Z.eqb_neq. }
  rewrite E. destruct (Z.testbit b k); [|reflexivity].
  assert (0 < 2 ^ k) by (apply Z.pow_pos_nonneg; lia).
  destruct (Z.eqb_spec (2 ^ k) 0); [lia|reflexivity].
Qed.

Lemma parseStatusData_five (b0 b1 b2 b3 b4 : Z) (rest : list Z) :
  parseStatusData ([b0; b1; b2; b3; b4] ++ rest) =
  Normal
    {| s_batteryLevel := b0;
       s_firmwareVersion := pretty b1 +:+ "." +:+ pretty b2 +:+ "." +:+ pretty b3;
       s_capabilities :=
         {| vibration := Z.testbit b4 0; temperature := Z.testbit b4 1;
            pressure := Z.testbit b4 2; flex := Z.testbit b4 3 |} |}.
Proof.
  unfold parseStatusData, getUint8, cbind. cbn [app lookup list_lookup].
  rewrite <- (land_pow2 b4 0), <- (land_pow2 b4 1), <- (land_pow2 b4 2),
    <- (land_pow2 b4 3) by lia.
  reflexivity.
Qed.

Lemma parseStatusData_short (data : list Z) :
  (length data < 5)%nat → ∃ m, parseStatusData data = Throw m.
Proof.
  intros H. unfold parseStatusData, getUint8, cbind.
  destruct data as [|b0 [|b1 [|b2 [|b3 [|b4 rest]]]]]; cbn in *; eauto. lia.
Qed.

Lemma mask_bits (c : DeviceCapabilities) (hi : Z) :
  0 <= hi →
  Z.testbit (capability_mask c + 16 * hi) 0 = vibration c ∧
  Z.testbit (capability_mask c + 16 * hi) 1 = temperature c ∧
  Z.testbit (capability_mask c + 16 * hi) 2 = pressure c ∧
  Z.testbit (capability_mask c + 16 * hi) 3 = flex c.
Proof.
  intros Hhi.
  assert (Hlow : ∀ k, 0 <= k < 4 →
            Z.testbit (capability_mask c + 16 * hi) k = Z.testbit (capability_mask c) k).
  { intros k Hk. rewrite <- (Z.mod_pow2_bits_low (capability_mask c + 16 * hi) 4 k) by lia.
    f_equal. change (2 ^ 4) with 16.
    replace (capability_mask c + 16 * hi) with (capability_mask c + hi * 16) by lia.
    rewrite Z.mod_add by lia.
    apply Z.mod_small. unfold capability_mask.
    destruct (vibration c), (temperature c), (pressure c), (flex c); lia. }
  rewrite !Hlow by lia. unfold capability_mask.
  destruct (vibration c), (temperature c), (pressure c), (flex c); repeat split; reflexivity.
Qed.

(** X9. [parseStatusData] needs five bytes and reads the capabilities off
    the low four bits of byte 4: a payload of fewer than five bytes throws,
    and a payload whose byte 4 is the bitmask of a capability record (bit 0
    vibration, bit 1 temperature, bit 2 pressure, bit 3 flex), with any
    higher bits and any trailing bytes, decodes to that record, byte 0 being
    the battery level. *)
Theorem parseStatusData_decodes :
  (∀ data, (∃ status, parseStatusData data = Normal status) ↔ (5 <= length data)%nat) ∧
  (∀ c b0 b1 b2 b3 hi rest,
      0 <= hi →
      ∃ status,
        parseStatusData ([b0; b1; b2; b3; capability_mask c + 16 * hi] ++ rest)
          = Normal status ∧
        s_capabilities status = c ∧ s_batteryLevel status = b0 ∧
        s_firmwareVersion status = pretty b1 +:+ "." +:+ pretty b2 +:+ "." +:+ pretty b3).
Proof.
  split.
  - intros data. split.
    + intros [status H]. destruct (le_lt_dec 5 (length data)) as [|Hlt]; [assumption|].
      destruct (parseStatusData_short data Hlt) as [m Hm]. congruence.
    + intros H. destruct data as [|b0 [|b1 [|b2 [|b3 [|b4 rest]]]]]; cbn in H; try lia.
      eexists. apply (parseStatusData_five b0 b1 b2 b3 b4 rest).
  - intros c b0 b1 b2 b3 hi rest Hhi. eexists.
    split; [apply parseStatusData_five|].
    cbn [s_capabilities s_batteryLevel s_firmwareVersion].
    destruct (mask_bits c hi Hhi) as (-> & -> & -> & ->).
    destruct c; auto.
Qed.

Lemma parseStatusData_decodes_witness :
  ∃ status,
    parseStatusData [87; 2; 1; 0; 3 + 16 * 15] = Normal status ∧
    s_capabilities status = defaultCapabilities ∧ s_batteryLevel status = 87 ∧
    s_firmwareVersion status = "2.1.0".
Proof.
  destruct (proj2 parseStatusData_decodes defaultCapabilities 87 2 1 0 15 [])
    as (status & H & Hc & Hb & Hf); [lia|].
  exists status. split; [exact H|]. split; [exact Hc|]. split; [exact Hb|].
  rewrite Hf. reflexivity.
Defined.

(** *** [fetchDeviceInfo] with a status characteristic *)

(** X10. With the status characteristic discovered and a payload of at
    least five bytes read from it, [fetchDeviceInfo] stores the decoded
    record: the device's id and name, connected, the battery level of byte
    0, the firmware version of bytes 1 to 3 and the capabilities of byte 4. *)
Theorem fetchDeviceInfo_decodes_status (bt : Bluetooth) (this : HapticController)
    (ch : Characteristic) (d : BluetoothDevice) (b0 b1 b2 b3 b4 : Z) (rest : list Z) :
  characteristics this !! STATUS_CHARACTERISTIC_UUID = Some ch →
  device this = Some d →
  readValue bt ch = Normal ([b0; b1; b2; b3; b4] ++ rest) →
  ∃ this',
    fetchDeviceInfo bt this = (Normal tt, this') ∧
    deviceInfo this' = Some
      {| id := dev_id d; name := device_name d; connected := true;
         batteryLevel := b0;
         firmwareVersion := pretty b1 +:+ "." +:+ pretty b2 +:+ "." +:+ pretty b3;
         capabilities :=
           {| vibration := Z.testbit b4 0; temperature := Z.testbit b4 1;
              pressure := Z.testbit b4 2; flex := Z.testbit b4 3 |} |} ∧
    same_trace this this'.
Proof.
  intros Hch Hd Hr.
  unfold fetchDeviceInfo, this_device, set_deviceInfo, try_catch, bind, get, await,
    update, ret, throw. cbv beta iota.
  rewrite Hch. cbv beta iota. rewrite Hr. cbv beta iota.
  rewrite parseStatusData_five. cbv beta iota. rewrite Hd.
  eexists. split; [reflexivity|]. split; [reflexivity|]. repeat split.
Qed.

Lemma fetchDeviceInfo_decodes_status_witness :
  ∃ this',
    fetchDeviceInfo refusing_stack
      {| device := Some {| dev_id := "A1"; dev_name := None |};
         server := true; service := true;
         characteristics :=
           {[ STATUS_CHARACTERISTIC_UUID := {| uuid := STATUS_CHARACTERISTIC_UUID |} ]};
         isConnected := false; deviceInfo := None; batteryMonitoring := false;
         emitted := []; written := [] |} = (Normal tt, this') ∧
    deviceInfo this' = Some
      {| id := "A1"; name := "FingerSuit"; connected := true; batteryLevel := 87;
         firmwareVersion := "2.1.0"; capabilities := defaultCapabilities |}.
Proof.
  destruct (fetchDeviceInfo_decodes_status refusing_stack
              {| device := Some {| dev_id := "A1"; dev_name := None |};
                 server := true; service := true;
                 characteristics :=
                   {[ STATUS_CHARACTERISTIC_UUID := {| uuid := STATUS_CHARACTERISTIC_UUID |} ]};
                 isConnected := false; deviceInfo := None; batteryMonitoring := false;
                 emitted := []; written := [] |}
              {| uuid := STATUS_CHARACTERISTIC_UUID |}
              {| dev_id := "A1"; dev_name := None |} 87 2 1 0 3 [])
    as (c & H & Hi & _); try reflexivity.
  exists c. split; [exact H|]. rewrite Hi. reflexivity.
Defined.

(** X11. With the status characteristic discovered, a read that fails or
    returns fewer than five bytes puts the default record in place: battery
    100, firmware 1.0.0, vibration and temperature only. *)
Theorem fetchDeviceInfo_falls_back (bt : Bluetooth) (this : HapticController)
    (ch : Characteristic) (d : BluetoothDevice) :
  characteristics this !! STATUS_CHARACTERISTIC_UUID = Some ch →
  device this = Some d →
  ((∃ m, readValue bt ch = Throw m) ∨
   (∃ data, readValue bt ch = Normal data ∧ (length data < 5)%nat)) →
  ∃ this',
    fetchDeviceInfo bt this = (Normal tt, this') ∧
    deviceInfo this' = Some
      {| id := dev_id d; name := device_name d; connected := true;
         batteryLevel := 100; firmwareVersion := "1.0.0";
         capabilities := defaultCapabilities |} ∧
    same_trace this this'.
Proof.
  intros Hch Hd Hfail.
  unfold fetchDeviceInfo, this_device, set_deviceInfo, try_catch, bind, get, await,
    update, ret, throw. cbv beta iota. rewrite Hch.
  cbv beta iota.
  destruct Hfail as [[m Hr]|(data & Hr & Hlen)]; rewrite Hr; cbv beta iota.
  - rewrite Hd. eexists. split; [reflexivity|]. split; [reflexivity|]. repeat split.
  - destruct (parseStatusData_short data Hlen) as [m ->]. cbv beta iota. rewrite Hd.
    eexists. split; [reflexivity|]. split; [reflexivity|]. repeat split.
Qed.

Lemma fetchDeviceInfo_falls_back_witness :
  ∃ this',
    fetchDeviceInfo no_status_stack
      {| device := Some {| dev_id := "A1"; dev_name := Some "" |};
         server := true; service := true;
         characteristics :=
           {[ STATUS_CHARACTERISTIC_UUID := {| uuid := STATUS_CHARACTERISTIC_UUID |} ]};
         isConnected := false; deviceInfo := None; batteryMonitoring := false;
         emitted := []; written := [] |} = (Normal tt, this') ∧
    deviceInfo this' = Some
      {| id := "A1"; name := "FingerSuit"; connected := true; batteryLevel := 100;
         firmwareVersion := "1.0.0"; capabilities := defaultCapabilities |}.
Proof.
  destruct (fetchDeviceInfo_falls_back no_status_stack
              {| device := Some {| dev_id := "A1"; dev_name := Some "" |};
                 server := true; service := true;
                 characteristics :=
                   {[ STATUS_CHARACTERISTIC_UUID := {| uuid := STATUS_CHARACTERISTIC_UUID |} ]};
                 isConnected := false; deviceInfo := None; batteryMonitoring := false;
                 emitted := []; written := [] |}
              {| uuid := STATUS_CHARACTERISTIC_UUID |}
              {| dev_id := "A1"; dev_name := Some "" |})
    as (c & H & Hi & _); try reflexivity.
  - left. eexists. reflexivity.
  - exists c. split; [exact H|exact Hi].
Defined.

(** *** [connect] *)









(** *** Losing the link *)

(** X13. [handleDisconnection] clears the link: the controller is no
    longer connected, the device and the characteristics are gone, the
    device record is kept with its [connected] flag cleared, one
    [disconnected] event is emitted, and from then on every send and the
    stop command return false and write nothing. *)
Theorem handleDisconnection_resets (this : HapticController) :
  ∃ this',
    handleDisconnection this = (Normal tt, this') ∧
    isConnected this' = false ∧ device this' = None ∧ characteristics this' = ∅ ∧
    deviceInfo this' = marked_disconnected <$> deviceInfo this ∧
    emitted this' = emitted this ++ [disconnected_event] ∧
    written this' = written this ∧
    (∀ bt config, sendVibration bt config this' = (Normal false, this')) ∧
    (∀ bt config, sendTemperature bt config this' = (Normal false, this')) ∧
    (∀ bt, stopAllFeedback bt this' = (Normal false, this')).
Proof.
  unfold handleDisconnection, set_isConnected, set_device, set_server, set_service,
    set_characteristics, set_deviceInfo, emit, bind, get, update, ret.
  destruct (deviceInfo this) as [info|] eqn:Hi; cbn;
    (eexists; split; [reflexivity|]); cbn; rewrite ?Hi; repeat split; reflexivity.
Qed.

(** *** Every command resolves *)




(** *** Battery notifications *)

(** X15. A battery notification with at least one byte updates the
    battery level of the device record to byte 0, leaves the rest of the
    record alone and emits [batteryUpdate] with the level.  While there is
    no device record the notification is dropped without an event, and a
    notification without a value does nothing. *)
Theorem battery_notification_updates :
  (∀ this info level rest,
      deviceInfo this = Some info →
      ∃ this',
        onBatteryValueChanged (Some (level :: rest)) this = (Normal tt, this') ∧
        deviceInfo this' = Some (with_battery level info) ∧
        emitted this' = emitted this ++ [batteryUpdate_event level] ∧
        written this' = written this ∧ isConnected this' = isConnected this) ∧
  (∀ this level rest,
      deviceInfo this = None →
      onBatteryValueChanged (Some (level :: rest)) this = (Normal tt, this)) ∧
  (∀ this, onBatteryValueChanged None this = (Normal tt, this)).
Proof.
  split; [|split].
  - intros this info level rest Hi.
    unfold onBatteryValueChanged, set_deviceInfo, emit, bind, await, get, update, ret.
    cbn. rewrite Hi. eexists. split; [reflexivity|]. repeat split.
  - intros this level rest Hi.
    unfold onBatteryValueChanged, bind, await, get, ret. cbn. now rewrite Hi.
  - reflexivity.
Qed.

Lemma battery_notification_updates_witness :
  (∃ this',
      onBatteryValueChanged (Some [42]) connected_controller = (Normal tt, this') ∧
      batteryLevel <$> deviceInfo this' = Some 42 ∧
      emitted this' = [batteryUpdate_event 42]) ∧
  onBatteryValueChanged (Some [42]) new_HapticController = (Normal tt, new_HapticController).
Proof.
  destruct battery_notification_updates as (H1 & H2 & _).
  split.
  - destruct (H1 connected_controller _ 42 [] eq_refl) as (c & E & Hi & He & _).
    exists c. split; [exact E|]. rewrite Hi. split; [reflexivity|exact He].
  - apply H2. reflexivity.
Defined.

(** *** Event listeners *)

Lemma indexOf_absent (callback : Listener) (listeners : list Listener) :
  callback ∉ listeners → indexOf callback listeners = -1.
Proof.
  induction listeners as [|l rest IH]; intros H; cbn [indexOf]; [reflexivity|].
  apply not_elem_of_cons in H as [Hne Hrest].
  destruct (decide (l = callback)); [congruence|]. now rewrite IH.
Qed.

Lemma indexOf_first (callback : Listener) (before after : list Listener) :
  callback ∉ before →
  indexOf callback (before ++ callback :: after) = Z.of_nat (length before).
Proof.
  induction before as [|l rest IH]; intros H; cbn [indexOf app length].
  - destruct (decide (callback = callback)); [reflexivity|congruence].
  - apply not_elem_of_cons in H as [Hne Hrest].
    destruct (decide (l = callback)); [congruence|]. rewrite (IH Hrest).
    destruct (Z.eqb_spec (Z.of_nat (length rest)) (-1)); lia.
Qed.

Lemma delete_middle (before after : list Listener) (callback : Listener) :
  delete (length before) (before ++ callback :: after) = before ++ after.
Proof. induction before as [|l rest IH]; simpl; [reflexivity|]. f_equal. exact IH. Qed.

(** X16. [removeEventListener] takes out the first registration of the
    callback and nothing else: later registrations of the same callback and
    all other listeners stay, in order.  Removing a callback that is not
    registered, or from an event that has no entry, changes nothing. *)
Theorem removeEventListener_removes_first :
  (∀ eventListeners event callback before after,
      eventListeners !! event = Some (before ++ callback :: after) →
      callback ∉ before →
      removeEventListener event callback eventListeners
        = <[event := before ++ after]> eventListeners) ∧
  (∀ eventListeners event callback,
      callback ∉ listeners_of event eventListeners →
      removeEventListener event callback eventListeners = eventListeners).
Proof.
  split.
  - intros reg event callback before after Hl Hn. unfold removeEventListener.
    rewrite Hl, (indexOf_first callback before after Hn).
    destruct (Z.gtb_spec (Z.of_nat (length before)) (-1)); [|lia].
    now rewrite Nat2Z.id, delete_middle.
  - intros reg event callback Hn. unfold removeEventListener, listeners_of in *.
    destruct (reg !! event) as [listeners|]; [|reflexivity]. cbn in Hn.
    now rewrite (indexOf_absent callback listeners Hn).
Qed.

Lemma removeEventListener_removes_first_witness :
  removeEventListener "error" 7%nat
    (addEventListener "error" 7%nat
       (addEventListener "error" 9%nat
          (addEventListener "error" 7%nat initializeEventListeners)))
    !! "error" = Some [9%nat; 7%nat] ∧
  removeEventListener "error" 8%nat initializeEventListeners = initializeEventListeners.
Proof.
  destruct removeEventListener_removes_first as (H1 & H2).
  split.
  - rewrite (H1 _ "error" 7%nat [] [9%nat; 7%nat]); [reflexivity|reflexivity|].
    apply not_elem_of_nil.
  - apply H2. apply not_elem_of_nil.
Defined.



End HapticExtra.

(** * Further properties of the detector *)

Module YoloExtra.

Import Yolo YoloProps.
Local Open Scope Q_scope.

(** *** [calculateIoU] as a ratio *)




(** X19. [calculateIoU] does not depend on the order of its two boxes. *)
Theorem calculateIoU_symmetric (box1 box2 : BoundingBox) :
  calculateIoU box1 box2 == calculateIoU box2 box1.
Proof.
  pose proof (Q.max_comm (x box1) (x box2)) as Ex1.
  pose proof (Q.max_comm (y box1) (y box2)) as Ey1.
  pose proof (Q.min_comm (x box1 + width box1) (x box2 + width box2)) as Ex2.
  pose proof (Q.min_comm (y box1 + height box1) (y box2 + height box2)) as Ey2.
  destruct (Qlt_le_dec (Qmax (x box1) (x box2))
              (Qmin (x box1 + width box1) (x box2 + width box2))) as [Hx|Hx].
  2:{ rewrite !calculateIoU_apart; [reflexivity|left; lra|now left]. }
  destruct (Qlt_le_dec (Qmax (y box1) (y box2))
              (Qmin (y box1 + height box1) (y box2 + height box2))) as [Hy|Hy].
  2:{ rewrite !calculateIoU_apart; [reflexivity|right; lra|now right]. }
  rewrite (calculateIoU_meet box1 box2 Hx Hy).
  rewrite (calculateIoU_meet box2 box1) by lra.
  rewrite <- Ex1, <- Ey1, <- Ex2, <- Ey2.
  apply Qdiv_comp; ring.
Qed.

(** *** What [applyNMS] keeps and what it drops *)

Lemma suppresses_false (config : YOLOConfig) (a b : DetectionResult) :
  suppresses config a b = false ↔ calculateIoU (bbox a) (bbox b) <= nmsThreshold config.
Proof. unfold suppresses, gt. apply lt_false. Qed.

Lemma suppresses_true (config : YOLOConfig) (a b : DetectionResult) :
  suppresses config a b = true ↔ nmsThreshold config < calculateIoU (bbox a) (bbox b).
Proof. unfold suppresses, gt. apply lt_spec. Qed.

Lemma existsb_false_elem {A} (f : A → bool) (l : list A) :
  existsb f l = false ↔ ∀ a, a ∈ l → f a = false.
Proof.
  induction l as [|b l IH]; cbn.
  - split; [intros _ a Ha; now apply elem_of_nil in Ha|reflexivity].
  - rewrite orb_false_iff, IH. split.
    + intros [Hb Hl] a Ha. apply elem_of_cons in Ha as [->|Ha]; auto.
    + intros H. split; [apply H; now left|]. intros a Ha. apply H. now right.
Qed.

Lemma select_compatible (config : YOLOConfig) (l : list DetectionResult) :
  ∀ kept,
    Forall (λ d, ∀ k, k ∈ kept → suppresses config k d = false) (select config kept l) ∧
    StronglySorted (λ a b, suppresses config a b = false) (select config kept l).
Proof.
  induction l as [|d l IH]; intros kept; cbn [select]; [split; constructor|].
  destruct (existsb _ kept) eqn:E; [apply IH|].
  destruct (IH (kept ++ [d])) as [HF HS]. split.
  - constructor; [now apply existsb_false_elem|].
    eapply Forall_impl; [exact HF|]. cbn. intros e He k Hk. apply He.
    apply elem_of_app. now left.
  - constructor; [exact HS|].
    eapply Forall_impl; [exact HF|]. cbn. intros e He. apply He.
    apply elem_of_app. right. now left.
Qed.

Lemma StronglySorted_lookup {A} (R : A → A → Prop) (l : list A) :
  StronglySorted R l →
  ∀ i j a b, (i < j)%nat → l !! i = Some a → l !! j = Some b → R a b.
Proof.
  induction 1 as [|c l _ IH Hall]; intros i j a b Hij Hi Hj; [discriminate|].
  destruct j as [|j]; [lia|]. cbn in Hj. destruct i as [|i]; cbn in Hi.
  - injection Hi as ->. rewrite Forall_forall in Hall. apply Hall.
    eapply list_elem_of_lookup_2. exact Hj.
  - apply (IH i j); [lia|assumption|assumption].
Qed.

(** X20. Among the detections [applyNMS] returns, no earlier one overlaps
    a later one beyond the NMS threshold. *)
Theorem applyNMS_pairwise_below_threshold (config : YOLOConfig)
    (detections : list DetectionResult) (i j : nat) (d1 d2 : DetectionResult) :
  (i < j)%nat →
  applyNMS config detections !! i = Some d1 →
  applyNMS config detections !! j = Some d2 →
  calculateIoU (bbox d1) (bbox d2) <= nmsThreshold config.
Proof.
  rewrite applyNMS_select. intros Hij Hi Hj. apply suppresses_false.
  destruct (select_compatible config (sort by_confidence detections) []) as [_ HS].
  exact (StronglySorted_lookup _ _ HS i j d1 d2 Hij Hi Hj).
Qed.

Lemma applyNMS_pairwise_below_threshold_witness :
  map id (applyNMS example_config crowded) = ["a"; "c"] ∧
  ∃ d1 d2,
    applyNMS example_config crowded !! 0%nat = Some d1 ∧
    applyNMS example_config crowded !! 1%nat = Some d2 ∧
    calculateIoU (bbox d1) (bbox d2) <= nmsThreshold example_config.
Proof.
  split; [vm_compute; reflexivity|].
  destruct (applyNMS example_config crowded !! 0%nat) as [d1|] eqn:E1;
    [|vm_compute in E1; discriminate E1].
  destruct (applyNMS example_config crowded !! 1%nat) as [d2|] eqn:E2;
    [|vm_compute in E2; discriminate E2].
  exists d1, d2. split; [reflexivity|]. split; [reflexivity|].
  apply (applyNMS_pairwise_below_threshold example_config crowded 0 1 d1 d2);
    [lia|exact E1|exact E2].
Defined.

(** X21. [applyNMS] invents nothing and orders by confidence: what it
    returns is a selection of the detections it was given, none returned
    more often than it was given, in order of descending confidence. *)
Theorem applyNMS_selects_in_order (config : YOLOConfig) (detections : list DetectionResult) :
  applyNMS config detections ⊆+ detections ∧
  descending (applyNMS config detections) ∧
  (length (applyNMS config detections) <= length detections)%nat.
Proof.
  rewrite applyNMS_select.
  pose proof (select_sublist config (sort by_confidence detections) []) as Hsub.
  assert (Hm : select config [] (sort by_confidence detections) ⊆+ detections).
  { rewrite <- (sort_permutation by_confidence detections) at 2.
    now apply sublist_submseteq. }
  split; [exact Hm|]. split.
  - eapply descending_sublist; [exact Hsub|apply sort_descending].
  - now apply submseteq_length.
Qed.

Lemma select_dropped (config : YOLOConfig) (l : list DetectionResult) :
  ∀ kept d,
    d ∈ l → d ∉ select config kept l →
    ∃ k, k ∈ kept ++ select config kept l ∧ suppresses config k d = true ∧
         (k ∈ kept ∨ ∃ l1 l2, l = l1 ++ d :: l2 ∧ k ∈ l1).
Proof.
  induction l as [|a l IH]; intros kept d Hd Hn; [now apply elem_of_nil in Hd|].
  cbn [select] in *. destruct (existsb _ kept) eqn:E.
  - apply elem_of_cons in Hd as [->|Hd].
    + apply existsb_exists in E as (k & Hk & Hs). exists k.
      split; [apply elem_of_app; left; now apply list_elem_of_In|]. split; [exact Hs|].
      left. now apply list_elem_of_In.
    + destruct (IH kept d Hd Hn) as (k & Hk & Hs & Hp). exists k.
      split; [exact Hk|]. split; [exact Hs|].
      destruct Hp as [Hp|(l1 & l2 & -> & Hp)]; [now left|].
      right. exists (a :: l1), l2. split; [reflexivity|now right].
  - apply not_elem_of_cons in Hn as [Hne Hn].
    apply elem_of_cons in Hd as [->|Hd]; [congruence|].
    destruct (IH (kept ++ [a]) d Hd Hn) as (k & Hk & Hs & Hp). exists k.
    split; [now rewrite <- app_assoc in Hk|]. split; [exact Hs|].
    destruct Hp as [Hp|(l1 & l2 & -> & Hp)].
    + apply elem_of_app in Hp as [Hp|Hp]; [now left|].
      apply list_elem_of_singleton in Hp as ->.
      apply list_elem_of_split in Hd as (l1 & l2 & ->).
      right. exists (a :: l1), l2. split; [reflexivity|now left].
    + right. exists (a :: l1), l2. split; [reflexivity|now right].
Qed.

(** X22. [applyNMS] drops a detection only for a reason: every detection
    of the input that is not returned is overlapped beyond the NMS
    threshold by a returned detection whose confidence is at least its
    own. *)
Theorem applyNMS_drops_only_suppressed (config : YOLOConfig)
    (detections : list DetectionResult) (d : DetectionResult) :
  d ∈ detections → d ∉ applyNMS config detections →
  ∃ k, k ∈ applyNMS config detections ∧ confidence d <= confidence k ∧
       nmsThreshold config < calculateIoU (bbox k) (bbox d).
Proof.
  rewrite applyNMS_select. intros Hd Hn.
  assert (Hs : d ∈ sort by_confidence detections)
    by now rewrite (sort_permutation by_confidence detections).
  destruct (select_dropped config _ [] d Hs Hn) as (k & Hk & Hsup & Hp).
  exists k. split; [exact Hk|]. split; [|now apply suppresses_true].
  destruct Hp as [Hp|(l1 & l2 & E & Hp)]; [now apply elem_of_nil in Hp|].
  pose proof (sort_descending detections) as Hdesc. unfold descending in Hdesc.
  rewrite E in Hdesc.
  apply (StronglySorted_app_1_elem_of _ l1 (d :: l2) k d Hdesc Hp). now left.
Qed.

Lemma applyNMS_drops_only_suppressed_witness :
  ∃ k, k ∈ applyNMS example_config crowded ∧
       7 # 10 <= confidence k ∧
       nmsThreshold example_config
         < calculateIoU (bbox k) {| x := 1; y := 0; width := 10; height := 10 |}.
Proof.
  apply (applyNMS_drops_only_suppressed example_config crowded
           (detection "b" (7 # 10) {| x := 1; y := 0; width := 10; height := 10 |})).
  - now left.
  - vm_compute. intros H. repeat (apply elem_of_cons in H as [H|H]; [discriminate H|]).
    now apply elem_of_nil in H.
Defined.

(** X23. [applyNMS] always returns the strongest detection first: on a
    non-empty input the result is non-empty and its first element is a
    detection of the input that no other detection of the input exceeds in
    confidence. *)
Theorem applyNMS_keeps_the_strongest (config : YOLOConfig) (detections : list DetectionResult) :
  detections ≠ [] →
  ∃ top rest,
    applyNMS config detections = top :: rest ∧ top ∈ detections ∧
    ∀ d, d ∈ detections → confidence d <= confidence top.
Proof.
  intros Hne. rewrite applyNMS_select.
  pose proof (sort_permutation by_confidence detections) as Hp.
  pose proof (sort_descending detections) as Hd. unfold descending in Hd.
  destruct (sort by_confidence detections) as [|top tl] eqn:E.
  - apply Permutation_nil_l in Hp. congruence.
  - cbn [select existsb]. eexists _, _. split; [reflexivity|]. split.
    + rewrite <- Hp. now left.
    + intros d Hin. rewrite <- Hp in Hin. inversion Hd as [|? ? _ Hall]; subst.
      apply elem_of_cons in Hin as [->|Hin]; [lra|].
      rewrite Forall_forall in Hall. now apply Hall.
Qed.

Lemma applyNMS_keeps_the_strongest_witness :
  ∃ top rest, applyNMS example_config crowded = top :: rest ∧ id top = "a".
Proof.
  destruct (applyNMS_keeps_the_strongest example_config crowded) as (top & rest & E & _);
    [discriminate|].
  exists top, rest. split; [exact E|].
  vm_compute in E. injection E as <- _. reflexivity.
Defined.




(** *** What a postprocessed detection guarantees *)

Local Arguments maxClass : simpl never.
Local Arguments classNames : simpl never.





(** *** The tensor of [preprocessImage] *)






(** *** The life of a detector *)

Lemma reachable_session (this : YOLO11Detector) :
  reachable this → isInitialized this = true → is_Some (session this).
Proof.
  induction 1 as [config|env this _ IH|config this _ IH|this _ IH].
  - discriminate.
  - exact (proj1 (initialize_keeps_session env this IH)).
  - exact IH.
  - discriminate.
Qed.

(** X27. The getter [initialized] is a safe gate for [detect]. For a
    detector built by the constructor and then initialised, reconfigured
    and disposed of in any order, [detect] rejects exactly when
    [initialized] is false; when it is true [detect] resolves, with
    detections or with the empty list. *)
Theorem initialized_guards_detect (env : Browser) (this : YOLO11Detector)
    (imageData : ImageData.t) (ticks : nat) :
  reachable this →
  (initialized this = true → ∃ r, detect env this imageData ticks = Normal r) ∧
  (initialized this = false → ∃ m, detect env this imageData ticks = Throw m).
Proof.
  intros Hr. unfold initialized, detect. split.
  - intros Hi. destruct (reachable_session this Hr Hi) as [s Hs]. rewrite Hi, Hs.
    unfold ctry, cbind.
    destruct (preprocessImage _ _ _) as [[[tensor scaleX] scaleY]|]; [|eauto].
    destruct (session_run _ _ _) as [results|]; [|eauto].
    destruct (results !! "output0"); eauto.
  - intros ->. eauto.
Qed.

Lemma initialized_guards_detect_witness :
  let this := snd (initialize plain_canvas (new_YOLO11Detector example_config)) in
  reachable this ∧ initialized this = true ∧
  ∃ r, detect plain_canvas this four_pixels 0 = Normal r.
Proof.
  cbv zeta.
  assert (Hr : reachable (snd (initialize plain_canvas (new_YOLO11Detector example_config))))
    by (apply reach_initialize, reach_new).
  split; [exact Hr|]. split; [reflexivity|].
  apply (proj1 (initialized_guards_detect plain_canvas _ four_pixels 0 Hr)). reflexivity.
Defined.

(** X28. [initialize] is all or nothing. It returns true exactly when
    the HEAD request for the model answers ok and the session is created,
    and then the detector is ready with its configuration unchanged; when it
    returns false the detector is left exactly as it was, so a detector that
    was ready stays ready with its old session. *)
Theorem initialize_all_or_nothing (env : Browser) (this : YOLO11Detector) :
  (fst (initialize env this) = true ↔
   fetch_ok env (modelUrl (config this)) = Normal true ∧
   ∃ s, create_session env (modelUrl (config this)) = Normal s) ∧
  (fst (initialize env this) = true →
   Ready (snd (initialize env this)) ∧ config (snd (initialize env this)) = config this) ∧
  (fst (initialize env this) = false → snd (initialize env this) = this).
Proof.
  unfold initialize, Ready.
  destruct (fetch_ok env _) as [[|]|]; cbn.
  - destruct (create_session env _) as [s|]; cbn.
    + repeat split; eauto; discriminate.
    + repeat split; try discriminate; try reflexivity. intros [_ [s Hs]]. discriminate.
  - repeat split; try discriminate; try reflexivity. intros [H _]. discriminate.
  - repeat split; try discriminate; try reflexivity. intros [H _]. discriminate.
Qed.

Lemma initialize_all_or_nothing_witness :
  let ready := snd (initialize plain_canvas (new_YOLO11Detector example_config)) in
  Ready ready ∧ fst (initialize failing_fetch ready) = false ∧
  snd (initialize failing_fetch ready) = ready.
Proof.
  cbv zeta.
  destruct (initialize_all_or_nothing plain_canvas (new_YOLO11Detector example_config))
    as (_ & Hok & _).
  destruct (initialize_all_or_nothing failing_fetch
              (snd (initialize plain_canvas (new_YOLO11Detector example_config))))
    as (_ & _ & Hfail).
  split; [apply Hok; reflexivity|]. split; [reflexivity|]. apply Hfail. reflexivity.
Defined.



End YoloExtra.
